(** * doc-processor: the client side of the job pipeline, and the queue contract

    A shallow embedding of the TypeScript front end of the PDF document
    processor (the API client with its status poll loop, the page that keeps
    the job list, the document viewer and the upload form), together with a
    model of the queue contract the design document describes.

    The sources hold two revisions of the API client and of the page. The
    embedding follows the later one, with per-file jobs and adaptive
    polling (part_003 for api.ts, part_002 for page.tsx); the earlier one
    (frontend/app/api.ts, frontend/app/page.tsx) tracks a single job and
    polls at a fixed interval.

    Conventions.
    - JavaScript strings are [string]; [===] on strings is [String.eqb].
    - JavaScript numbers that hold millisecond timestamps, timer delays and
      array indices are [Z]; [findIndex] answers [-1] when nothing matches.
    - A call that may throw returns a [completion]: [Normal v] or [Throw e].
    - React state is passed explicitly: a handler takes the component state
      and returns the next one, together with what it asked the outside
      world to do (a timer to arm, an upload to start).
    - The network and the clock are the environment: each poll iteration is
      given what the server answers at that moment and what [Date.now()]
      reads. [console.error] writes to the console only and is not modelled. *)

From Stdlib Require Import ZArith Lia.
From stdpp Require Import base strings list gmap.

Local Open Scope Z_scope.

(** ** Completions of calls that may throw *)

(** A JavaScript [Error] as far as the client looks at it: its message. *)
Record JsError := mkError { message : string }.

Inductive completion (A : Type) : Type :=
| Normal (a : A)
| Throw (e : JsError).
Arguments Normal {A} a.
Arguments Throw {A} e.

(** ** app/api.ts: the API client *)

Module Api.

Record JobStatus := mkJobStatus {
  job_id : string;
  status : string;
  markdown : string;
  summary : string
}.

Record UploadJob := mkUploadJob {
  up_job_id : string;
  up_filename : string
}.

(** What axios rejects with: the HTTP status code when the server answered
    with an error code (404 for an unknown job), nothing when no answer
    came. *)
Record AxiosError := mkAxiosError { http_code : option Z }.

(** The server as one request sees it: a URL is answered with a body or
    the request is rejected. *)
Definition Http := string -> AxiosError + JobStatus.

Definition status_url (jobId : string) : string :=
  "/api/v1/documents/" +:+ jobId.

Definition fetch_failed : JsError :=
  mkError "Failed to fetch job status. Please try again.".

(** [getJobStatus]: the body of the answer, or a fresh [Error] whatever
    the rejection was. *)
Definition getJobStatus (http : Http) (jobId : string) : completion JobStatus :=
  match http (status_url jobId) with
  | inr data => Normal data
  | inl _ => Throw fetch_failed
  end.

(** What one run of [poll] leaves behind: nothing ([return]) or one armed
    timer ([setTimeout(poll, ms)]). *)
Inductive Next :=
| Return
| SetTimeout (ms : Z).

(** What one run of [poll] observes: the server at the time of its request
    and the clock when it computes [elapsed]. *)
Record PollEnv := mkPollEnv {
  http_now : Http;
  date_now : Z
}.

(** One line of the loop's history: the URL asked for and what was armed. *)
Record PollEvent := mkPollEvent {
  requested : string;
  armed : Next
}.

Definition is_terminal (st : string) : bool :=
  (st =? "done")%string || (st =? "error")%string.

Section Poll.
(** The caller's state, which the status callback updates; the callback
    may throw, after having changed that state or not. *)
Context {S : Type}.
Variable jobId : string.
Variable onStatusUpdate : JobStatus -> S -> S * completion unit.
Variables initialInterval slowInterval fastPollDurationMs : Z.
Variable startTime : Z.

(** The closure [poll]. Everything between the request and the timer is
    inside the [try]: a rejected request and a throwing callback both
    land in the [catch], which arms the timer with [initialInterval]. *)
Definition poll (env : PollEnv) (s : S) : S * Next :=
  match getJobStatus (http_now env) jobId with
  | Normal st =>
      match onStatusUpdate st s with
      | (s', Normal _) =>
          if is_terminal (status st) then (s', Return)
          else
            let elapsed := date_now env - startTime in
            let interval :=
              if elapsed <? fastPollDurationMs then initialInterval
              else slowInterval in
            (s', SetTimeout interval)
      | (s', Throw _) => (s', SetTimeout initialInterval)
      end
  | Throw _ => (s, SetTimeout initialInterval)
  end.

(** The four ways one run of [poll] goes. *)
Inductive poll_case (env : PollEnv) (s : S) : S * Next -> Prop :=
| request_failed e :
    getJobStatus (http_now env) jobId = Throw e ->
    poll_case env s (s, SetTimeout initialInterval)
| callback_threw st s' e :
    getJobStatus (http_now env) jobId = Normal st ->
    onStatusUpdate st s = (s', Throw e) ->
    poll_case env s (s', SetTimeout initialInterval)
| finished st s' :
    getJobStatus (http_now env) jobId = Normal st ->
    onStatusUpdate st s = (s', Normal tt) ->
    is_terminal (status st) = true ->
    poll_case env s (s', Return)
| goes_on st s' :
    getJobStatus (http_now env) jobId = Normal st ->
    onStatusUpdate st s = (s', Normal tt) ->
    is_terminal (status st) = false ->
    poll_case env s
      (s', SetTimeout (if date_now env - startTime <? fastPollDurationMs
                       then initialInterval else slowInterval)).

(** The loop: [poll] runs once at once and then each time its timer
    fires, as long as a timer is armed. The script lists what the
    successive runs observe; the history has one line per run made. *)
Fixpoint poll_loop (script : list PollEnv) (s : S) : S * list PollEvent :=
  match script with
  | [] => (s, [])
  | env :: rest =>
      let '(s1, nx) := poll env s in
      let ev := mkPollEvent (status_url jobId) nx in
      match nx with
      | Return => (s1, [ev])
      | SetTimeout _ =>
          let '(s2, evs) := poll_loop rest s1 in (s2, ev :: evs)
      end
  end.
End Poll.

(** [pollJobStatus] with its default parameters: an argument left out is
    [None]. [clock0] is what [Date.now()] reads when polling starts. *)
Definition pollJobStatus {S : Type} (jobId : string)
    (onStatusUpdate : JobStatus -> S -> S * completion unit)
    (initialInterval slowInterval fastPollDurationMs : option Z)
    (clock0 : Z) (script : list PollEnv) (s : S) : S * list PollEvent :=
  poll_loop jobId onStatusUpdate
    (default 100 initialInterval)
    (default 500 slowInterval)
    (default 5000 fastPollDurationMs)
    clock0 script s.

End Api.

(** ** Array.prototype.findIndex *)

(** The index of the first element that satisfies [p], counted from [i];
    [-1] when there is none. *)
Fixpoint findIndex_from {A : Type} (p : A -> bool) (l : list A) (i : Z) : Z :=
  match l with
  | [] => -1
  | x :: rest => if p x then i else findIndex_from p rest (i + 1)
  end.

Definition findIndex {A : Type} (p : A -> bool) (l : list A) : Z :=
  findIndex_from p l 0.

(** ** app/page.tsx: the page and its job list *)

Module Page.

Record Job := mkJob {
  jobId : string;
  filename : string;
  status : string;
  summary : string;
  markdown : string
}.

Record PageState := mkPageState {
  isUploading : bool;
  jobs : list Job;
  selectedJobId : option string;
  error : option string
}.

Definition initial : PageState := mkPageState false [] None None.

(** The updater [upsertJob] hands to [setJobs]: [prev] is the list React
    holds when the update is applied. [updated[idx] = job] writes inside
    the copy, [idx] being an index [findIndex] found. *)
Definition upsertJob (job : Job) (prev : list Job) : list Job :=
  let idx := findIndex (fun j => (jobId j =? jobId job)%string) prev in
  if negb (idx =? -1) then <[Z.to_nat idx := job]> prev
  else prev ++ [job].

Definition setJobs (f : list Job -> list Job) (st : PageState) : PageState :=
  mkPageState (isUploading st) (f (jobs st)) (selectedJobId st) (error st).

(** The three records [handleSubmit] builds. *)
Definition newJob (u : Api.UploadJob) : Job :=
  mkJob (Api.up_job_id u) (Api.up_filename u) "pending" "" "".

Definition statusJob (u : Api.UploadJob) (jobStatus : Api.JobStatus) : Job :=
  mkJob (Api.up_job_id u) (Api.up_filename u)
    (Api.status jobStatus) (Api.summary jobStatus) (Api.markdown jobStatus).

Definition pollFailedJob (u : Api.UploadJob) : Job :=
  mkJob (Api.up_job_id u) (Api.up_filename u)
    "error" "" "Error checking job status. Please try again.".

(** What the body of the [forEach] does to the list at once for the upload
    [u]: it enters the new record. *)
Definition upsertNew (js : list Job) (u : Api.UploadJob) : list Job :=
  upsertJob (newJob u) js.

(** The callback given to [pollJobStatus] for the upload [u], and the
    handler attached with [.catch]. *)
Definition onStatusUpdate (u : Api.UploadJob) (jobStatus : Api.JobStatus)
    (st : PageState) : PageState * completion unit :=
  (setJobs (upsertJob (statusJob u jobStatus)) st, Normal tt).

Definition onPollRejected (u : Api.UploadJob) (st : PageState) : PageState :=
  setJobs (upsertJob (pollFailedJob u)) st.

(** [handleSubmit], from the click to the end of its [finally], given how
    [uploadDocuments] completed. It returns the next state and the uploads
    for which a poll loop was started, in order. The loops' first requests
    are only sent here; their callbacks run later, as separate events. *)
Definition handleSubmit (upload : completion (list Api.UploadJob))
    (st : PageState) : PageState * list Api.UploadJob :=
  match upload with
  | Normal uploadJobs =>
      let jobs' :=
        fold_left upsertNew uploadJobs (jobs st) in
      let selected :=
        match uploadJobs with
        | u :: _ => Some (Api.up_job_id u)
        | [] => selectedJobId st
        end in
      (mkPageState false jobs' selected None, uploadJobs)
  | Throw _ =>
      (mkPageState false (jobs st) (selectedJobId st)
         (Some "Error uploading documents. Please try again."), [])
  end.

(** What happens to the page after it is mounted. *)
Inductive Event :=
| Submitted (upload : completion (list Api.UploadJob))
| StatusArrived (u : Api.UploadJob) (jobStatus : Api.JobStatus)
| PollRejected (u : Api.UploadJob)
| ProcessMore.

Definition step (ev : Event) (st : PageState) : PageState :=
  match ev with
  | Submitted upload => fst (handleSubmit upload st)
  | StatusArrived u jobStatus => fst (onStatusUpdate u jobStatus st)
  | PollRejected u => onPollRejected u st
  | ProcessMore => mkPageState (isUploading st) [] None (error st)
  end.

Definition run (evs : list Event) (st : PageState) : PageState :=
  fold_left (fun s ev => step ev s) evs st.

End Page.

(** ** components/document-viewer.tsx *)

Module DocumentViewer.

Definition getStatusPercentage (status : string) : Z :=
  if (status =? "pending")%string then 25
  else if (status =? "processing")%string then 50
  else if (status =? "done")%string then 100
  else if (status =? "error")%string then 100
  else 0.

Definition getStatusLabel (status : string) : string :=
  if (status =? "pending")%string then "Pending - Waiting for processing"
  else if (status =? "processing")%string then "Processing - Converting document"
  else if (status =? "done")%string then "Complete - Document processed successfully"
  else if (status =? "error")%string then "Error - Document processing failed"
  else "Unknown status".

(** What the component renders: the status card always, the summary and
    content cards for ['done'], the error card for ['error']. *)
Record View := mkView {
  label : string;
  percentage : Z;
  summaryCard : option string;
  contentCard : option string;
  errorCard : option string
}.

(** [a || b] on strings: the empty string is falsy. *)
Definition str_or (a b : string) : string :=
  if (a =? "")%string then b else a.

(** [jobId] is [string | null]; [!jobId] holds for [null] and for the
    empty string. *)
Definition DocumentViewer (jobId : option string)
    (status markdown summary : string) : option View :=
  match jobId with
  | None => None
  | Some id =>
      if (id =? "")%string then None
      else
        let done := (status =? "done")%string in
        let failed := (status =? "error")%string in
        Some (mkView (getStatusLabel status) (getStatusPercentage status)
                (if done then Some summary else None)
                (if done then Some markdown else None)
                (if failed then Some (str_or markdown "Unknown error") else None))
  end.

End DocumentViewer.

(** ** components/file-upload.tsx *)

Module FileUpload.

(** A browser [File] as far as the form looks at it. *)
Record File := mkFile {
  name : string;
  type : string;
  size : Z
}.

Record State := mkState {
  files : list File;
  parser : string;
  error : option string
}.

Definition initial : State := mkState [] "pypdf" None.

Definition is_pdf (file : File) : bool :=
  (type file =? "application/pdf")%string.

Definition all_pdf (fs : list File) : Prop :=
  Forall (fun f => type f = "application/pdf") fs.

Definition setError (e : option string) (st : State) : State :=
  mkState (files st) (parser st) e.

Definition setFiles (fs : list File) (st : State) : State :=
  mkState fs (parser st) (error st).

Definition setParser (p : string) (st : State) : State :=
  mkState (files st) p (error st).

Definition onDrop (acceptedFiles : list File) (st : State) : State :=
  let st0 := setError None st in
  let pdfFiles := List.filter is_pdf acceptedFiles in
  let st1 :=
    if negb (Nat.eqb (length pdfFiles) (length acceptedFiles))
    then setError (Some "Only PDF files are allowed.") st0
    else st0 in
  if Nat.ltb 0 (length pdfFiles) then setFiles pdfFiles st1 else st1.

(** [handleSubmit] returns the next state and the call of [onSubmit] it
    made, if it made one. [!parser] holds for the empty string. *)
Definition handleSubmit (st : State) : State * option (list File * string) :=
  if Nat.eqb (length (files st)) 0
  then (setError (Some "Please upload at least one PDF file") st, None)
  else if (parser st =? "")%string
  then (setError (Some "Please select a parser") st, None)
  else (st, Some (files st, parser st)).

(** What the user can do with the form. *)
Inductive Event :=
| Drop (acceptedFiles : list File)
| ValueChange (value : string)
| Click.

Definition step (ev : Event) (st : State) : State * option (list File * string) :=
  match ev with
  | Drop acceptedFiles => (onDrop acceptedFiles st, None)
  | ValueChange value => (setParser value st, None)
  | Click => handleSubmit st
  end.

(** The form's life: the state reached and the calls of [onSubmit] made,
    oldest first. *)
Fixpoint run (evs : list Event) (st : State) : State * list (list File * string) :=
  match evs with
  | [] => (st, [])
  | ev :: rest =>
      let '(st1, call) := step ev st in
      let '(st2, calls) := run rest st1 in
      (st2, match call with Some c => c :: calls | None => calls end)
  end.

End FileUpload.

(** ** The queue contract *)

Module Queue.

(** Modelled from the spec: the Queue of the design (enqueue, claim, ack,
    reclaim over one consumer group's bookkeeping). The worker and its
    queue client (backend/app/worker.py and what it imports) are not among
    the sources; only the script that starts the worker is. An entry is
    named by its position in the log; a delivery token names one delivery
    of one entry. *)
Record QueueEntry := mkEntry {
  job_id : string;
  parser_kind : string
}.

(** Modelled from the spec: a delivery token, the handle of one delivery of
    one entry, which an acknowledgement has to present. *)
Record DeliveryToken := mkToken {
  entry_of : nat;
  delivery_no : nat
}.

(** Modelled from the spec: what a consumer group remembers of a delivered,
    unacknowledged entry (who holds it, since when, how often it was
    delivered). *)
Record Delivery := mkDelivery {
  consumer : string;
  delivered_at : Z;
  deliveries : nat
}.

(** Modelled from the spec: the bookkeeping of one consumer group over the
    log. *)
Record Group := mkGroup {
  cursor : nat;                   (* first log position never delivered *)
  pending : gmap nat Delivery;    (* delivered and not acknowledged *)
  reclaimed : list nat;           (* claimable again, oldest first *)
  processed : gset nat            (* acknowledged *)
}.

(** Modelled from the spec: the durable, append-only log and its consumer
    groups by name. *)
Record Queue := mkQueue {
  log : list QueueEntry;
  groups : gmap string Group
}.

(** Modelled from the spec: a group that has not been delivered anything. *)
Definition empty_group : Group := mkGroup 0%nat ∅ [] ∅.

(** Modelled from the spec: reading and writing one group of the queue. *)
Definition group_of (q : Queue) (group : string) : Group :=
  default empty_group (groups q !! group).

Definition set_group (group : string) (g : Group) (q : Queue) : Queue :=
  mkQueue (log q) (<[group := g]> (groups q)).

(** Modelled from the spec: [enqueue(entry)] appends to the log. *)
Definition enqueue (entry : QueueEntry) (q : Queue) : Queue :=
  mkQueue (log q ++ [entry]) (groups q).

(** Modelled from the spec: [claim(group, consumer_id, block_timeout)]
    returns at most one entry with a delivery token, a reclaimed entry
    before a new one; [None] is the timeout. [now] is the time of the
    delivery. *)
Definition claim (group consumer_id : string) (now : Z) (q : Queue)
    : Queue * option (QueueEntry * DeliveryToken) :=
  let g := group_of q group in
  match reclaimed g with
  | i :: rest =>
      match log q !! i with
      | Some entry =>
          let n := default 0%nat (deliveries <$> pending g !! i) in
          let d := mkDelivery consumer_id now (Datatypes.S n) in
          (set_group group
             (mkGroup (cursor g) (<[i := d]> (pending g)) rest (processed g)) q,
           Some (entry, mkToken i (Datatypes.S n)))
      | None => (q, None)
      end
  | [] =>
      match log q !! cursor g with
      | Some entry =>
          let d := mkDelivery consumer_id now 1%nat in
          (set_group group
             (mkGroup (Datatypes.S (cursor g)) (<[cursor g := d]> (pending g))
                [] (processed g)) q,
           Some (entry, mkToken (cursor g) 1%nat))
      | None => (q, None)
      end
  end.

(** Modelled from the spec: [ack(group, delivery_token)] marks the entry
    as durably processed. Only a delivered, unacknowledged entry can be
    acknowledged; any other token changes nothing. *)
Definition ack (group : string) (delivery_token : DeliveryToken) (q : Queue) : Queue :=
  match groups q !! group with
  | None => q
  | Some g =>
      let i := entry_of delivery_token in
      match pending g !! i with
      | None => q
      | Some _ =>
          set_group group
            (mkGroup (cursor g) (delete i (pending g))
               (List.filter (fun j => negb (Nat.eqb j i)) (reclaimed g))
               ({[ i ]} ∪ processed g)) q
      end
  end.

(** Modelled from the spec: a delivery is idle when it was made more than
    [idle_threshold] ago. *)
Definition idle (now idle_threshold : Z) (kd : nat * Delivery) : bool :=
  idle_threshold <? now - delivered_at (snd kd).

(** Modelled from the spec: [reclaim(group, idle_threshold)] returns the
    entries delivered more than [idle_threshold] ago and never
    acknowledged, and makes them claimable again. *)
Definition reclaim (group : string) (idle_threshold now : Z) (q : Queue)
    : Queue * list nat :=
  let g := group_of q group in
  let stale :=
    List.filter (fun i => negb (bool_decide (i ∈ reclaimed g)))
      (fst <$> List.filter (idle now idle_threshold) (map_to_list (pending g))) in
  (set_group group
     (mkGroup (cursor g) (pending g) (reclaimed g ++ stale) (processed g)) q,
   stale).

End Queue.

(** ** app/page.tsx: what the page renders *)

Module Home.

(** [jobs.find(j => j.jobId === selectedJobId) || null]: no job is selected
    while [selectedJobId] is [null]. *)
Definition selectedJob (st : Page.PageState) : option Page.Job :=
  List.find
    (fun j => match Page.selectedJobId st with
              | Some id => (Page.jobId j =? id)%string
              | None => false
              end)
    (Page.jobs st).

(** One entry of the document history. *)
Record SidebarItem := mkSidebarItem {
  item_filename : string;
  item_status : string;
  highlighted : bool;
  spinner : bool;
  errorNote : bool
}.

(** [['pending', 'processing'].includes(status)] *)
Definition in_progress (status : string) : bool :=
  (status =? "pending")%string || (status =? "processing")%string.

Definition sidebarItem (selectedJobId : option string) (job : Page.Job) : SidebarItem :=
  mkSidebarItem (Page.filename job) (Page.status job)
    (match selectedJobId with
     | Some id => (id =? Page.jobId job)%string
     | None => false
     end)
    (in_progress (Page.status job))
    (Page.status job =? "error")%string.

(** The history: [None] stands for the line "No documents yet". *)
Definition Sidebar (st : Page.PageState) : option (list SidebarItem) :=
  match Page.jobs st with
  | [] => None
  | js => Some (sidebarItem (Page.selectedJobId st) <$> js)
  end.

(** The main area below the title: the upload form while the list is
    empty, otherwise the viewer of the selected job, if there is one. *)
Inductive MainContent :=
| ShowFileUpload (isUploading : bool)
| ShowViewer (view : option DocumentViewer.View)
| ShowNothing.

Definition mainContent (st : Page.PageState) : MainContent :=
  match Page.jobs st with
  | [] => ShowFileUpload (Page.isUploading st)
  | _ =>
      match selectedJob st with
      | Some job =>
          ShowViewer (DocumentViewer.DocumentViewer (Some (Page.jobId job))
                        (Page.status job) (Page.markdown job) (Page.summary job))
      | None => ShowNothing
      end
  end.

(** [error && ...]: the banner shows for an error text that is not empty. *)
Definition errorBanner (st : Page.PageState) : option string :=
  match Page.error st with
  | Some e => if (e =? "")%string then None else Some e
  | None => None
  end.

(** [jobs.length > 0 && ...]: the button "Process More Documents". *)
Definition processMoreButton (st : Page.PageState) : bool :=
  Nat.ltb 0 (length (Page.jobs st)).

(** The page's events together with a click on entry [i] of the history,
    which selects that job. *)
Inductive Event :=
| PageEvent (ev : Page.Event)
| SidebarClick (i : nat).

Definition step (ev : Event) (st : Page.PageState) : Page.PageState :=
  match ev with
  | PageEvent e => Page.step e st
  | SidebarClick i =>
      match Page.jobs st !! i with
      | Some job =>
          Page.mkPageState (Page.isUploading st) (Page.jobs st)
            (Some (Page.jobId job)) (Page.error st)
      | None => st
      end
  end.

Definition run (evs : list Event) (st : Page.PageState) : Page.PageState :=
  fold_left (fun s ev => step ev s) evs st.

(** What holds of every state of the page: no job id is listed twice, and
    the selected id, if any, is listed. *)
Definition well_formed (st : Page.PageState) : Prop :=
  NoDup (Page.jobId <$> Page.jobs st) /\
  forall id, Page.selectedJobId st = Some id -> id ∈ (Page.jobId <$> Page.jobs st).

(** The status updates of some poll loops, as page events. *)
Definition statusEvents (updates : list (Api.UploadJob * Api.JobStatus)) : list Page.Event :=
  (fun '(u, jobStatus) => Page.StatusArrived u jobStatus) <$> updates.

End Home.

(** ** components/file-upload.tsx: the button and the parser choice *)

Module FileUploadView.

(** [disabled={isUploading || files.length === 0}] *)
Definition buttonDisabled (isUploading : bool) (st : FileUpload.State) : bool :=
  isUploading || Nat.eqb (length (FileUpload.files st)) 0.

(** The values of the three [RadioGroupItem]s. *)
Definition radioValues : list string := ["pypdf"; "gemini"; "mistral"].

(** An event the rendered form can produce: the radio group reports one of
    its items' values. *)
Definition rendered (ev : FileUpload.Event) : Prop :=
  match ev with
  | FileUpload.ValueChange value => value ∈ radioValues
  | _ => True
  end.

End FileUploadView.

(** ** app/api.ts: uploadDocuments *)

Module Upload.

(** A [FormData] body: its entries in the order they were appended. *)
Inductive FormValue :=
| FileValue (file : FileUpload.File)
| TextValue (text : string).

Definition FormData := list (string * FormValue).

Definition append (key : string) (value : FormValue) (formData : FormData) : FormData :=
  formData ++ [(key, value)].

(** [FormData.getAll(key)] *)
Definition getAll (key : string) (formData : FormData) : list FormValue :=
  snd <$> List.filter (fun kv => (fst kv =? key)%string) formData.

(** The body [uploadDocuments] builds: one ['files'] entry per file, then
    the ['parser'] entry. *)
Definition formDataOf (files : list FileUpload.File) (parser : string) : FormData :=
  append "parser" (TextValue parser)
    (fold_left (fun formData file => append "files" (FileValue file) formData)
       files []).

(** The server as one POST sees it. *)
Definition HttpPost := string -> FormData -> Api.AxiosError + list Api.UploadJob.

Definition upload_failed : JsError :=
  mkError "Failed to upload documents. Please try again.".

Definition uploadDocuments (post : HttpPost) (files : list FileUpload.File)
    (parser : string) : completion (list Api.UploadJob) :=
  match post "/api/v1/documents/upload" (formDataOf files parser) with
  | inr data => Normal data
  | inl _ => Throw upload_failed
  end.

End Upload.

(** ** frontend/app/api.ts: the earlier poll loop *)

Module ApiV1.

(** What one run of the earlier [poll] ends in: [return], an armed timer,
    or the rejection "Polling timeout reached", thrown before the [try]. *)
Inductive Outcome :=
| Returned
| Armed (ms : Z)
| Rejected (e : JsError).

Definition timeout_reached : JsError := mkError "Polling timeout reached".

Section Poll.
Context {S : Type}.
Variable jobId : string.
Variable onStatusUpdate : Api.JobStatus -> S -> S * completion unit.
Variables interval maxAttempts : Z.

(** One run of [poll] with the counter [attempts] as it stands; it returns
    the caller's state, the counter and the outcome. *)
Definition poll (http : Api.Http) (attempts : Z) (s : S) : S * Z * Outcome :=
  if maxAttempts <=? attempts then (s, attempts, Rejected timeout_reached)
  else
    match Api.getJobStatus http jobId with
    | Normal st =>
        match onStatusUpdate st s with
        | (s', Normal _) =>
            if Api.is_terminal (Api.status st) then (s', attempts, Returned)
            else (s', attempts + 1, Armed interval)
        | (s', Throw _) => (s', attempts + 1, Armed interval)
        end
    | Throw _ => (s, attempts + 1, Armed interval)
    end.

(** The loop: a run is made at once and then whenever a timer fires. The
    script lists the server as the successive runs find it. *)
Fixpoint poll_loop (script : list Api.Http) (attempts : Z) (s : S)
    : S * list Outcome :=
  match script with
  | [] => (s, [])
  | http :: rest =>
      let '(s1, attempts1, out) := poll http attempts s in
      match out with
      | Armed _ =>
          let '(s2, outs) := poll_loop rest attempts1 s1 in (s2, out :: outs)
      | _ => (s1, [out])
      end
  end.
End Poll.

(** A run that sent a request: every run but the rejected one. *)
Definition sent_request (out : Outcome) : bool :=
  match out with
  | Rejected _ => false
  | _ => true
  end.

(** [pollJobStatus] with its defaults. [await poll()] waits for the first
    run only: the promise is rejected when that run is, and a rejection in a
    run started by a timer reaches nobody. *)
Definition pollJobStatus {S : Type} (jobId : string)
    (onStatusUpdate : Api.JobStatus -> S -> S * completion unit)
    (interval maxAttempts : option Z) (script : list Api.Http) (s : S)
    : S * list Outcome * completion unit :=
  let '(s', outs) :=
    poll_loop jobId onStatusUpdate (default 2000 interval)
      (default 60 maxAttempts) script 0 s in
  (s', outs,
   match outs with
   | Rejected e :: _ => Throw e
   | _ => Normal tt
   end).

End ApiV1.

(** ** What the client can tell of the server's answers *)

Module Wire.



End Wire.

(** * Properties *)

(** ** findIndex *)

Lemma findIndex_from_cases {A : Type} (p : A -> bool) (l : list A) (i : Z) :
  0 <= i ->
  (findIndex_from p l i = -1 /\ Forall (fun x => p x = false) l) \/
  (exists (n : nat) (x : A),
      findIndex_from p l i = i + Z.of_nat n /\ l !! n = Some x /\ p x = true /\
      Forall (fun y => p y = false) (take n l)).
Proof.
  revert i. induction l as [|a l IH]; intros i Hi; simpl.
  - left. split; [reflexivity | constructor].
  - destruct (p a) eqn:Hpa.
    + right. exists 0%nat, a. simpl. repeat split; [lia | assumption | constructor].
    + destruct (IH (i + 1) ltac:(lia)) as [[Hm Hall] | (n & x & Hn & Hx & Hpx & Hbefore)].
      * left. split; [assumption | by constructor].
      * right. exists (Datatypes.S n), x. simpl. repeat split; [lia | assumption | assumption | by constructor].
Qed.

Lemma findIndex_cases {A : Type} (p : A -> bool) (l : list A) :
  (findIndex p l = -1 /\ Forall (fun x => p x = false) l) \/
  (exists (n : nat) (x : A),
      findIndex p l = Z.of_nat n /\ l !! n = Some x /\ p x = true /\
      Forall (fun y => p y = false) (take n l)).
Proof.
  unfold findIndex.
  destruct (findIndex_from_cases p l 0 ltac:(lia)) as [H | (n & x & Hn & H)];
    [by left | right; exists n, x; split; [lia | exact H]].
Qed.

Example findIndex_found : findIndex (fun n => n =? 7) [3; 7; 7] = 1.
Proof. reflexivity. Qed.

Example findIndex_missing : findIndex (fun n => n =? 9) [3; 7; 7] = -1.
Proof. reflexivity. Qed.

(** ** The job list *)

Example upsertJob_replaces_in_place :
  Page.upsertJob (Page.mkJob "j2" "b.pdf" "done" "sum" "# B")
    [Page.mkJob "j1" "a.pdf" "pending" "" ""; Page.mkJob "j2" "b.pdf" "processing" "" "";
     Page.mkJob "j3" "c.pdf" "pending" "" ""]
  = [Page.mkJob "j1" "a.pdf" "pending" "" ""; Page.mkJob "j2" "b.pdf" "done" "sum" "# B";
     Page.mkJob "j3" "c.pdf" "pending" "" ""].
Proof. reflexivity. Qed.

Example upsertJob_appends :
  Page.upsertJob (Page.mkJob "j2" "b.pdf" "pending" "" "")
    [Page.mkJob "j1" "a.pdf" "pending" "" ""]
  = [Page.mkJob "j1" "a.pdf" "pending" "" ""; Page.mkJob "j2" "b.pdf" "pending" "" ""].
Proof. reflexivity. Qed.

Section JobList.
Import Page.

(** The two ways [upsertJob] goes. *)
Lemma upsertJob_cases (job : Job) (prev : list Job) :
  (exists (i : nat) (old : Job),
      prev !! i = Some old /\ jobId old = jobId job /\
      Forall (fun j => jobId j <> jobId job) (take i prev) /\
      upsertJob job prev = <[i := job]> prev) \/
  (Forall (fun j => jobId j <> jobId job) prev /\
   upsertJob job prev = prev ++ [job]).
Proof.
  unfold upsertJob.
  destruct (findIndex_cases (fun j => (jobId j =? jobId job)%string) prev)
    as [[Hidx Hall] | (n & x & Hidx & Hx & Hpx & Hbefore)]; rewrite Hidx.
  - right. split; [| reflexivity].
    eapply Forall_impl; [exact Hall |]. intros j Hj. by apply String.eqb_neq.
  - left. exists n, x. apply String.eqb_eq in Hpx.
    replace (negb (Z.of_nat n =? -1)) with true
      by (symmetry; apply negb_true_iff, Z.eqb_neq; lia).
    rewrite Nat2Z.id. repeat split; try assumption.
    eapply Forall_impl; [exact Hbefore |]. intros j Hj. by apply String.eqb_neq.
Qed.

Lemma upsertJob_elem (job : Job) (prev : list Job) : job ∈ upsertJob job prev.
Proof.
  destruct (upsertJob_cases job prev) as [(i & old & Hi & _ & _ & ->) | [_ ->]].
  - apply list_elem_of_lookup. exists i. apply list_lookup_insert_eq.
    by eapply lookup_lt_Some.
  - apply elem_of_app. right. by apply list_elem_of_singleton.
Qed.

Lemma upsertJob_ids (job : Job) (prev : list Job) :
  (jobId <$> upsertJob job prev) = (jobId <$> prev) \/
  ((jobId job ∉ (jobId <$> prev)) /\
   (jobId <$> upsertJob job prev) = (jobId <$> prev) ++ [jobId job]).
Proof.
  destruct (upsertJob_cases job prev) as [(i & old & Hi & Hid & _ & ->) | [Hall ->]].
  - left. rewrite list_fmap_insert. apply list_insert_id.
    rewrite list_lookup_fmap, Hi. simpl. by rewrite Hid.
  - right. split; [| by rewrite fmap_app].
    intros (j & Hj & Hin)%list_elem_of_fmap.
    rewrite Forall_forall in Hall. by apply (Hall j Hin).
Qed.

Lemma upsertJob_NoDup (job : Job) (prev : list Job) :
  NoDup (jobId <$> prev) -> NoDup (jobId <$> upsertJob job prev).
Proof.
  intros Hnd. destruct (upsertJob_ids job prev) as [-> | [Hfresh ->]]; [assumption |].
  apply NoDup_app. split; [assumption |]. split; [| apply NoDup_singleton].
  intros x Hx ->%list_elem_of_singleton. contradiction.
Qed.

Lemma upsertJob_other (job j : Job) (prev : list Job) :
  jobId j <> jobId job -> j ∈ upsertJob job prev <-> j ∈ prev.
Proof.
  intros Hne.
  destruct (upsertJob_cases job prev) as [(i & old & Hi & Hid & _ & ->) | [_ ->]].
  - split.
    + intros (k & Hk)%list_elem_of_lookup.
      destruct (decide (k = i)) as [-> | Hki].
      * rewrite list_lookup_insert_eq in Hk by (by eapply lookup_lt_Some).
        congruence.
      * rewrite list_lookup_insert_ne in Hk by done.
        apply list_elem_of_lookup. by exists k.
    + intros (k & Hk)%list_elem_of_lookup.
      apply list_elem_of_lookup. exists k.
      rewrite list_lookup_insert_ne; [assumption |]. intros ->. congruence.
  - rewrite elem_of_app, list_elem_of_singleton. split; [| by left].
    intros [H | ->]; [assumption | congruence].
Qed.
End JobList.

(** C9. [upsertJob] keeps the job list free of repeated job ids: from a list
    with at most one entry per [jobId], the result has at most one entry per
    [jobId] and contains the given job. If an entry with that [jobId]
    existed, the job takes its place: same length, every other position
    unchanged. Otherwise the job is appended at the end. *)
Theorem upsertJob_preserves_uniqueness (prev : list Page.Job) (job : Page.Job) :
  NoDup (Page.jobId <$> prev) ->
  NoDup (Page.jobId <$> Page.upsertJob job prev) /\
  job ∈ Page.upsertJob job prev /\
  ((exists (i : nat) (old : Page.Job),
       prev !! i = Some old /\ Page.jobId old = Page.jobId job /\
       Page.upsertJob job prev = <[i := job]> prev /\
       Page.upsertJob job prev !! i = Some job /\
       length (Page.upsertJob job prev) = length prev /\
       (forall k : nat, k <> i -> Page.upsertJob job prev !! k = prev !! k)) \/
   ((forall j, j ∈ prev -> Page.jobId j <> Page.jobId job) /\
    Page.upsertJob job prev = prev ++ [job])).
Proof.
  intros Hnd. split; [by apply upsertJob_NoDup |].
  split; [apply upsertJob_elem |].
  destruct (upsertJob_cases job prev) as [(i & old & Hi & Hid & _ & Heq) | [Hall Heq]].
  - left. exists i, old. rewrite Heq. repeat split; try assumption.
    + apply list_lookup_insert_eq. by eapply lookup_lt_Some.
    + apply length_insert.
    + intros k Hk. by apply list_lookup_insert_ne.
  - right. split; [| assumption]. by apply Forall_forall.
Qed.

Lemma upsertJob_preserves_uniqueness_witness :
  let a := Page.mkJob "j1" "a.pdf" "pending" "" "" in
  let b := Page.mkJob "j2" "b.pdf" "pending" "" "" in
  let a' := Page.mkJob "j1" "a.pdf" "done" "short" "# A" in
  NoDup (Page.jobId <$> [a; b]) /\
  Page.upsertJob a' [a; b] = [a'; b] /\
  NoDup (Page.jobId <$> Page.upsertJob a' [a; b]).
Proof.
  intros a b a'.
  assert (Hnd : NoDup (Page.jobId <$> [a; b])).
  { apply (bool_decide_unpack _). vm_compute. exact I. }
  split; [exact Hnd |]. split; [reflexivity |].
  exact (proj1 (upsertJob_preserves_uniqueness [a; b] a' Hnd)).
Defined.

(** ** The document viewer *)

Example DocumentViewer_without_job :
  DocumentViewer.DocumentViewer None "done" "# A" "sum" = None /\
  DocumentViewer.DocumentViewer (Some "") "done" "# A" "sum" = None.
Proof. split; reflexivity. Qed.

Example DocumentViewer_done :
  DocumentViewer.DocumentViewer (Some "j1") "done" "# A" "sum"
  = Some (DocumentViewer.mkView "Complete - Document processed successfully" 100
            (Some "sum") (Some "# A") None).
Proof. reflexivity. Qed.

Example DocumentViewer_error_without_text :
  DocumentViewer.DocumentViewer (Some "j1") "error" "" ""
  = Some (DocumentViewer.mkView "Error - Document processing failed" 100
            None None (Some "Unknown error")).
Proof. reflexivity. Qed.

(** C10. The progress mapping is defined on every status string:
    25 for ['pending'], 50 for ['processing'], 100 for ['done'] and for
    ['error'], 0 for every other string; so it is 100 exactly on the two
    terminal states. *)
Theorem getStatusPercentage_total (status : string) :
  DocumentViewer.getStatusPercentage "pending" = 25 /\
  DocumentViewer.getStatusPercentage "processing" = 50 /\
  DocumentViewer.getStatusPercentage "done" = 100 /\
  DocumentViewer.getStatusPercentage "error" = 100 /\
  (status ∉ ["pending"; "processing"; "done"; "error"] <->
     DocumentViewer.getStatusPercentage status = 0) /\
  (DocumentViewer.getStatusPercentage status = 100 <->
     status = "done" \/ status = "error").
Proof.
  repeat (split; [reflexivity |]).
  unfold DocumentViewer.getStatusPercentage.
  rewrite !elem_of_cons, elem_of_nil.
  destruct (String.eqb_spec status "pending") as [-> | H1];
    [split; split; intros H; first [discriminate H | tauto | destruct H; discriminate] |].
  destruct (String.eqb_spec status "processing") as [-> | H2];
    [split; split; intros H; first [discriminate H | tauto | destruct H; discriminate] |].
  destruct (String.eqb_spec status "done") as [-> | H3];
    [split; split; intros H; first [discriminate H | tauto] |].
  destruct (String.eqb_spec status "error") as [-> | H4];
    [split; split; intros H; first [discriminate H | tauto] |].
  split; split; intros H; first [discriminate H | tauto].
Qed.

(** ** The page *)

Lemma NoDup_fmap_eq {A B : Type} (f : A -> B) (l : list A) (x y : A) :
  NoDup (f <$> l) -> x ∈ l -> y ∈ l -> f x = f y -> x = y.
Proof.
  induction l as [|a l IH]; simpl; intros Hnd Hx Hy Hf.
  - by apply elem_of_nil in Hx.
  - apply NoDup_cons in Hnd as [Hfresh Hnd].
    apply elem_of_cons in Hx as [-> | Hx]; apply elem_of_cons in Hy as [-> | Hy].
    + reflexivity.
    + exfalso. apply Hfresh. rewrite Hf. by apply list_elem_of_fmap_2.
    + exfalso. apply Hfresh. rewrite <- Hf. by apply list_elem_of_fmap_2.
    + by apply IH.
Qed.

Section PageRuns.
Import Page.

Lemma fold_upsertNew_NoDup (ups : list Api.UploadJob) (js : list Job) :
  NoDup (jobId <$> js) -> NoDup (jobId <$> fold_left upsertNew ups js).
Proof.
  revert js. induction ups as [|u ups IH]; simpl; intros js Hnd; [assumption |].
  apply IH. by apply upsertJob_NoDup.
Qed.

(** After the uploads are entered, each of them has its record in the
    list: the one built for the last upload that carries its job id. *)
Lemma fold_upsertNew_elem (ups : list Api.UploadJob) (js : list Job) (u : Api.UploadJob) :
  u ∈ ups ->
  exists u', u' ∈ ups /\ Api.up_job_id u' = Api.up_job_id u /\
             newJob u' ∈ fold_left upsertNew ups js.
Proof.
  revert u. induction ups as [|a ups IH] using rev_ind; intros u Hu.
  - by apply elem_of_nil in Hu.
  - rewrite fold_left_app. simpl. unfold upsertNew at 1.
    destruct (decide (Api.up_job_id u = Api.up_job_id a)) as [Heq | Hne].
    + exists a. split; [apply elem_of_app; right; by apply list_elem_of_singleton |].
      split; [by symmetry | apply upsertJob_elem].
    + apply elem_of_app in Hu as [Hu | Hu%list_elem_of_singleton]; [| congruence].
      destruct (IH u Hu) as (u' & Hu' & Hid & Hin).
      exists u'. split; [apply elem_of_app; by left |]. split; [assumption |].
      apply upsertJob_other; [simpl; congruence | assumption].
Qed.

Lemma step_NoDup (ev : Event) (st : PageState) :
  NoDup (jobId <$> jobs st) -> NoDup (jobId <$> jobs (step ev st)).
Proof.
  intros Hnd. destruct ev as [[ups | e] | u js | u |]; simpl.
  - by apply fold_upsertNew_NoDup.
  - assumption.
  - by apply upsertJob_NoDup.
  - by apply upsertJob_NoDup.
  - constructor.
Qed.

(** Every list the page ever holds has at most one entry per job id. *)
Lemma run_NoDup (evs : list Event) (st : PageState) :
  NoDup (jobId <$> jobs st) -> NoDup (jobId <$> jobs (run evs st)).
Proof.
  revert st. induction evs as [|ev evs IH]; simpl; intros st Hnd; [assumption |].
  apply IH. by apply step_NoDup.
Qed.
End PageRuns.

(** C8. Every job begins as pending with no output. Whatever happened on the
    page before, when an upload is answered with the list [uploadJobs], the
    record built for each of them has status ['pending'], empty markdown and
    empty summary, and once [handleSubmit] is through the job list holds an
    entry for that job id, and any entry with that job id is such a record;
    the poll loops whose status updates change it later are started for
    exactly these uploads. *)
Theorem handleSubmit_creates_pending_jobs
    (evs : list Page.Event) (uploadJobs : list Api.UploadJob) (u : Api.UploadJob) :
  u ∈ uploadJobs ->
  Page.newJob u = Page.mkJob (Api.up_job_id u) (Api.up_filename u) "pending" "" "" /\
  (exists j, j ∈ Page.jobs (fst (Page.handleSubmit (Normal uploadJobs)
                                    (Page.run evs Page.initial))) /\
             Page.jobId j = Api.up_job_id u) /\
  (forall j, j ∈ Page.jobs (fst (Page.handleSubmit (Normal uploadJobs)
                                    (Page.run evs Page.initial))) ->
             Page.jobId j = Api.up_job_id u ->
             Page.status j = "pending" /\ Page.markdown j = "" /\ Page.summary j = "") /\
  snd (Page.handleSubmit (Normal uploadJobs) (Page.run evs Page.initial)) = uploadJobs.
Proof.
  intros Hu. split; [reflexivity |]. simpl.
  set (st := Page.run evs Page.initial).
  assert (Hnd : NoDup (Page.jobId <$> fold_left Page.upsertNew uploadJobs (Page.jobs st))).
  { apply fold_upsertNew_NoDup, run_NoDup. constructor. }
  destruct (fold_upsertNew_elem uploadJobs (Page.jobs st) u Hu) as (u' & _ & Hid & Hin).
  split; [exists (Page.newJob u'); split; [exact Hin | exact Hid] |].
  split; [| reflexivity].
  intros j Hj Hjid.
  assert (j = Page.newJob u') as ->.
  { eapply NoDup_fmap_eq; [exact Hnd | exact Hj | exact Hin |]. simpl. congruence. }
  by repeat split.
Qed.

Lemma handleSubmit_creates_pending_jobs_witness :
  let a := Api.mkUploadJob "j1" "a.pdf" in
  let b := Api.mkUploadJob "j2" "b.pdf" in
  Page.jobs (fst (Page.handleSubmit (Normal [a; b]) (Page.run [] Page.initial))) =
    [Page.mkJob "j1" "a.pdf" "pending" "" ""; Page.mkJob "j2" "b.pdf" "pending" "" ""] /\
  exists j, j ∈ Page.jobs (fst (Page.handleSubmit (Normal [a; b]) (Page.run [] Page.initial))) /\
            Page.jobId j = "j2".
Proof.
  intros a b. split; [reflexivity |].
  assert (Hb : b ∈ [a; b]) by (apply elem_of_cons; right; apply elem_of_cons; by left).
  exact (proj1 (proj2 (handleSubmit_creates_pending_jobs [] [a; b] b Hb))).
Defined.

(** ** The queue *)

(** C2. Acknowledging is idempotent: for every queue state, group and
    delivery token, acknowledging a second time leaves the queue as the
    first acknowledgement left it. *)
Theorem ack_idempotent (q : Queue.Queue) (group : string) (token : Queue.DeliveryToken) :
  Queue.ack group token (Queue.ack group token q) = Queue.ack group token q.
Proof.
  destruct (Queue.groups q !! group) as [g |] eqn:Hg.
  - destruct (Queue.pending g !! Queue.entry_of token) as [d |] eqn:Hd.
    + assert (Hq : Queue.ack group token q =
                   Queue.set_group group
                     (Queue.mkGroup (Queue.cursor g)
                        (delete (Queue.entry_of token) (Queue.pending g))
                        (List.filter (fun j => negb (Nat.eqb j (Queue.entry_of token)))
                           (Queue.reclaimed g))
                        ({[ Queue.entry_of token ]} ∪ Queue.processed g)) q).
      { unfold Queue.ack. by rewrite Hg, Hd. }
      rewrite Hq. unfold Queue.ack, Queue.set_group. simpl.
      rewrite lookup_insert_eq. simpl. by rewrite lookup_delete_eq.
    + assert (Hq : Queue.ack group token q = q).
      { unfold Queue.ack. by rewrite Hg, Hd. }
      by rewrite !Hq.
  - assert (Hq : Queue.ack group token q = q).
    { unfold Queue.ack. by rewrite Hg. }
    by rewrite !Hq.
Qed.

(** A queue that is reached by the operations: one entry enqueued, claimed
    by a worker and acknowledged twice. *)
Lemma ack_idempotent_witness :
  let entry := Queue.mkEntry "j1" "pypdf" in
  let q1 := Queue.enqueue entry (Queue.mkQueue [] ∅) in
  let token := Queue.mkToken 0 1 in
  snd (Queue.claim "workers" "worker-1" 10 q1) = Some (entry, token) /\
  let q2 := fst (Queue.claim "workers" "worker-1" 10 q1) in
  Queue.pending (Queue.group_of q2 "workers") !! 0%nat
    = Some (Queue.mkDelivery "worker-1" 10 1) /\
  Queue.pending (Queue.group_of (Queue.ack "workers" token q2) "workers") !! 0%nat = None /\
  0%nat ∈ Queue.processed (Queue.group_of (Queue.ack "workers" token q2) "workers") /\
  Queue.ack "workers" token (Queue.ack "workers" token q2) = Queue.ack "workers" token q2.
Proof.
  cbv zeta. split; [reflexivity |]. split; [reflexivity |]. split; [reflexivity |].
  split; [| apply ack_idempotent].
  apply (bool_decide_unpack _). vm_compute. exact I.
Defined.

(** ** The markdown field *)

(** C4, as the code has it. The record created at submission is pending with
    empty markdown. A status update copies the status and the markdown the
    lookup returned into the job's record, whatever the status; the record
    the poll-failure handler builds has status ['error'] and a message in
    its markdown field. So a job in status ['error'] may carry markdown
    text: the viewer then shows that text in its error card (and 'Unknown
    error' when it is empty), and it shows markdown as the document content
    for status ['done'] only. *)
Theorem markdown_follows_status_lookup
    (st : Page.PageState) (u : Api.UploadJob) (jobStatus : Api.JobStatus)
    (id status markdown summary : string) :
  id <> "" ->
  (Page.status (Page.newJob u) = "pending" /\ Page.markdown (Page.newJob u) = "") /\
  (Page.statusJob u jobStatus ∈ Page.jobs (fst (Page.onStatusUpdate u jobStatus st)) /\
   Page.status (Page.statusJob u jobStatus) = Api.status jobStatus /\
   Page.markdown (Page.statusJob u jobStatus) = Api.markdown jobStatus) /\
  (Page.status (Page.pollFailedJob u) = "error" /\
   Page.markdown (Page.pollFailedJob u) = "Error checking job status. Please try again.") /\
  exists v, DocumentViewer.DocumentViewer (Some id) status markdown summary = Some v /\
    (DocumentViewer.contentCard v = Some markdown <-> status = "done") /\
    (DocumentViewer.contentCard v = None <-> status <> "done") /\
    (status = "error" ->
       DocumentViewer.errorCard v =
         Some (if decide (markdown = "") then "Unknown error" else markdown)) /\
    (status <> "error" -> DocumentViewer.errorCard v = None).
Proof.
  intros Hid. split; [by split |]. split; [| split; [by split |]].
  - split; [apply upsertJob_elem | by split].
  - unfold DocumentViewer.DocumentViewer.
    destruct (String.eqb_spec id "") as [? | _]; [contradiction |].
    eexists. split; [reflexivity |]. simpl. unfold DocumentViewer.str_or.
    destruct (String.eqb_spec status "done") as [Hd | Hd];
      destruct (String.eqb_spec status "error") as [He | He];
      destruct (String.eqb_spec markdown "") as [Hm | Hm];
      destruct (decide (markdown = "")); try contradiction;
      repeat split; intros; try congruence; try contradiction; try reflexivity.
Qed.

Lemma markdown_follows_status_lookup_witness :
  let u := Api.mkUploadJob "j1" "a.pdf" in
  let reply := Api.mkJobStatus "j1" "error" "# Extracted text" "" in
  "j1" <> "" /\
  Page.statusJob u reply ∈ Page.jobs (fst (Page.onStatusUpdate u reply Page.initial)) /\
  Page.markdown (Page.statusJob u reply) = "# Extracted text".
Proof.
  intros u reply.
  assert (Hid : "j1" <> "") by discriminate.
  split; [exact Hid |].
  pose proof (markdown_follows_status_lookup Page.initial u reply
                "j1" "error" "# Extracted text" "" Hid) as (_ & (Hin & _ & Hmd) & _).
  exact (conj Hin Hmd).
Defined.

(** C4 as the specification states it fails: a job whose upload was accepted
    and whose status lookup answers ['error'] together with the extracted
    text ends up in the job list with status ['error'] and a markdown field
    that is not empty, and the viewer shows that text. *)
Lemma error_job_carries_markdown :
  let u := Api.mkUploadJob "j1" "a.pdf" in
  let reply := Api.mkJobStatus "j1" "error" "# Extracted text" "" in
  let st := Page.run [Page.Submitted (Normal [u]); Page.StatusArrived u reply]
              Page.initial in
  Page.jobs st = [Page.mkJob "j1" "a.pdf" "error" "" "# Extracted text"] /\
  (exists j, j ∈ Page.jobs st /\ Page.status j = "error" /\
             Page.status j <> "done" /\ Page.markdown j <> "") /\
  (DocumentViewer.errorCard <$>
     DocumentViewer.DocumentViewer (Some "j1") "error" "# Extracted text" "")
  = Some (Some "# Extracted text") /\
  Page.pollFailedJob u
  = Page.mkJob "j1" "a.pdf" "error" "" "Error checking job status. Please try again.".
Proof.
  cbv zeta. split; [reflexivity |]. split; [| split; reflexivity].
  eexists. split; [apply list_elem_of_singleton; reflexivity |].
  simpl. split; [reflexivity |]. split; discriminate.
Qed.

(** ** The upload form *)

Example onDrop_mixed :
  FileUpload.onDrop
    [FileUpload.mkFile "notes.txt" "text/plain" 12;
     FileUpload.mkFile "a.pdf" "application/pdf" 2048] FileUpload.initial
  = FileUpload.mkState [FileUpload.mkFile "a.pdf" "application/pdf" 2048] "pypdf"
      (Some "Only PDF files are allowed.").
Proof. reflexivity. Qed.

Example handleSubmit_empty_selection :
  FileUpload.handleSubmit FileUpload.initial
  = (FileUpload.mkState [] "pypdf" (Some "Please upload at least one PDF file"), None).
Proof. reflexivity. Qed.

Section Form.
Import FileUpload.

Lemma filter_is_pdf (acceptedFiles : list File) :
  all_pdf (List.filter is_pdf acceptedFiles).
Proof.
  apply Forall_forall. intros f Hf%list_elem_of_In%filter_In.
  destruct Hf as [_ Hf]. by apply String.eqb_eq.
Qed.

(** What a drop leaves in the selection: the PDF files among the dropped
    ones, or the selection as it was when there is none among them. *)
Lemma onDrop_files (acceptedFiles : list File) (st : State) :
  files (onDrop acceptedFiles st) =
    match List.filter is_pdf acceptedFiles with
    | [] => files st
    | pdfFiles => pdfFiles
    end.
Proof.
  unfold onDrop.
  destruct (List.filter is_pdf acceptedFiles) as [|f fs]; simpl;
    [by destruct (length acceptedFiles) | reflexivity].
Qed.

Lemma onDrop_all_pdf (acceptedFiles : list File) (st : State) :
  all_pdf (files st) -> all_pdf (files (onDrop acceptedFiles st)).
Proof.
  intros Hst. rewrite onDrop_files.
  pose proof (filter_is_pdf acceptedFiles) as Hf.
  by destruct (List.filter is_pdf acceptedFiles).
Qed.

Lemma handleSubmit_call (st : State) (c : list File * string) :
  snd (handleSubmit st) = Some c ->
  c = (files st, parser st) /\ files st <> [] /\ parser st <> "" /\
  fst (handleSubmit st) = st.
Proof.
  unfold handleSubmit.
  destruct (files st) as [|f fs] eqn:Hfs; simpl; [discriminate |].
  destruct (String.eqb_spec (parser st) "") as [Hp | Hp]; simpl; [discriminate |].
  intros [= <-]. by repeat split.
Qed.

Lemma handleSubmit_files (st : State) : files (fst (handleSubmit st)) = files st.
Proof.
  unfold handleSubmit.
  destruct (Nat.eqb _ _); [reflexivity |]. by destruct (String.eqb _ _).
Qed.

Lemma step_all_pdf (ev : Event) (st : State) :
  all_pdf (files st) -> all_pdf (files (fst (step ev st))).
Proof.
  intros Hst. destruct ev as [acc | value |]; simpl.
  - by apply onDrop_all_pdf.
  - assumption.
  - by rewrite handleSubmit_files.
Qed.

Lemma run_calls (evs : list Event) (st : State) :
  all_pdf (files st) ->
  all_pdf (files (fst (run evs st))) /\
  Forall (fun c => fst c <> [] /\ all_pdf (fst c) /\ snd c <> "") (snd (run evs st)).
Proof.
  revert st. induction evs as [|ev evs IH]; intros st Hst; simpl.
  - split; [assumption | constructor].
  - pose proof (step_all_pdf ev st Hst) as Hstep.
    destruct (step ev st) as [st1 call] eqn:Hev. simpl in Hstep.
    destruct (IH st1 Hstep) as [Hfiles Hcalls].
    destruct (run evs st1) as [st2 calls]. simpl in *.
    split; [assumption |].
    destruct call as [c |]; [| assumption].
    constructor; [| assumption].
    destruct ev as [acc | value |]; simpl in Hev; try (inversion Hev; fail).
    assert (Hc : snd (handleSubmit st) = Some c) by (by rewrite Hev).
    apply handleSubmit_call in Hc as (-> & Hne & Hp & _). simpl.
    by repeat split.
Qed.
End Form.

(** C5. Bad input is rejected at submission. Of the files of a drop only
    those of MIME type ['application/pdf'] are kept in the selection (and a
    drop without any leaves the selection as it was); [handleSubmit] calls
    [onSubmit] only with a selection that is not empty, passing that
    selection; so over the whole life of the form every call of [onSubmit]
    carries at least one file and PDF files only. *)
Theorem only_pdf_selection_is_submitted
    (evs : list FileUpload.Event) (acceptedFiles : list FileUpload.File)
    (fs : list FileUpload.File) (p : string) :
  (fs, p) ∈ snd (FileUpload.run evs FileUpload.initial) ->
  (fs <> [] /\ FileUpload.all_pdf fs) /\
  (FileUpload.all_pdf (FileUpload.files (FileUpload.onDrop acceptedFiles
                                (fst (FileUpload.run evs FileUpload.initial)))) /\
   FileUpload.files (FileUpload.onDrop acceptedFiles
                       (fst (FileUpload.run evs FileUpload.initial))) =
     match List.filter FileUpload.is_pdf acceptedFiles with
     | [] => FileUpload.files (fst (FileUpload.run evs FileUpload.initial))
     | pdfFiles => pdfFiles
     end) /\
  (forall st, FileUpload.files st = [] -> snd (FileUpload.handleSubmit st) = None) /\
  (forall st c, snd (FileUpload.handleSubmit st) = Some c ->
                fst c = FileUpload.files st /\ FileUpload.files st <> []).
Proof.
  intros Hcall.
  destruct (run_calls evs FileUpload.initial ltac:(constructor)) as [Hfiles Hcalls].
  split; [| split; [| split]].
  - rewrite Forall_forall in Hcalls. destruct (Hcalls _ Hcall) as (Hne & Hpdf & _).
    by split.
  - split; [by apply onDrop_all_pdf | apply onDrop_files].
  - intros st Hst. unfold FileUpload.handleSubmit. by rewrite Hst.
  - intros st c Hc. apply handleSubmit_call in Hc as (-> & Hne & _). by split.
Qed.

Lemma only_pdf_selection_is_submitted_witness :
  let pdf := FileUpload.mkFile "a.pdf" "application/pdf" 2048 in
  let txt := FileUpload.mkFile "notes.txt" "text/plain" 12 in
  let evs := [FileUpload.Click; FileUpload.Drop [txt];
              FileUpload.Click; FileUpload.Drop [txt; pdf]; FileUpload.Click] in
  snd (FileUpload.run evs FileUpload.initial) = [([pdf], "pypdf")] /\
  [pdf] <> [] /\ FileUpload.all_pdf [pdf].
Proof.
  intros pdf txt evs.
  assert (Hrun : snd (FileUpload.run evs FileUpload.initial) = [([pdf], "pypdf")])
    by reflexivity.
  split; [exact Hrun |].
  assert (Hin : ([pdf], "pypdf") ∈ snd (FileUpload.run evs FileUpload.initial)).
  { rewrite Hrun. apply elem_of_cons. by left. }
  exact (proj1 (only_pdf_selection_is_submitted evs [] [pdf] "pypdf" Hin)).
Defined.

(** ** The poll loop *)

Lemma is_terminal_spec (st : string) :
  Api.is_terminal st = true <-> st = "done" \/ st = "error".
Proof.
  unfold Api.is_terminal. rewrite orb_true_iff.
  by rewrite !String.eqb_eq.
Qed.

Section PollLoop.
Import Api.
Context {S : Type}.
Variable jobId : string.
Variable onStatusUpdate : JobStatus -> S -> S * completion unit.
Variables initialInterval slowInterval fastPollDurationMs startTime : Z.

Local Abbreviation poll1 :=
  (poll jobId onStatusUpdate initialInterval slowInterval fastPollDurationMs startTime).
Local Abbreviation loop :=
  (poll_loop jobId onStatusUpdate initialInterval slowInterval fastPollDurationMs startTime).

Lemma poll_cases (env : PollEnv) (s : S) :
  poll_case jobId onStatusUpdate initialInterval slowInterval fastPollDurationMs
    startTime env s (poll1 env s).
Proof.
  unfold poll.
  destruct (getJobStatus (http_now env) jobId) as [st | e] eqn:Hget.
  - destruct (onStatusUpdate st s) as [s' [[] | e]] eqn:Hcb.
    + destruct (is_terminal (status st)) eqn:Hterm.
      * by eapply finished.
      * by eapply goes_on.
    + by eapply callback_threw.
  - by eapply request_failed.
Qed.

(** Every run of the loop asks for the status of the job it was started
    for. *)
Lemma poll_loop_requested (script : list PollEnv) (s : S) :
  Forall (fun ev => requested ev = status_url jobId) (snd (loop script s)).
Proof.
  revert s. induction script as [|env rest IH]; intros s; simpl; [constructor |].
  destruct (poll1 env s) as [s1 [| ms]]; simpl; [by repeat constructor |].
  specialize (IH s1). destruct (loop rest s1) as [s2 evs]. simpl in *.
  by constructor.
Qed.

Lemma poll_loop_length (script : list PollEnv) (s : S) :
  (length (snd (loop script s)) <= length script)%nat.
Proof.
  revert s. induction script as [|env rest IH]; intros s; simpl; [lia |].
  destruct (poll1 env s) as [s1 [| ms]]; simpl; [lia |].
  specialize (IH s1). destruct (loop rest s1) as [s2 evs]. simpl in *. lia.
Qed.

(** Run [k] of the loop is [poll] on what the script holds at [k], from
    the state the earlier runs left. *)
Lemma poll_loop_lookup (script : list PollEnv) (s : S) (k : nat) (ev : PollEvent) :
  snd (loop script s) !! k = Some ev ->
  exists env sk, script !! k = Some env /\
                 ev = mkPollEvent (status_url jobId) (snd (poll1 env sk)).
Proof.
  revert s k. induction script as [|env rest IH]; intros s k; simpl; [done |].
  destruct (poll1 env s) as [s1 nx] eqn:Hp.
  destruct nx as [| ms].
  - destruct k as [|k]; simpl; [| done].
    intros [= <-]. exists env, s. by rewrite Hp.
  - specialize (IH s1). destruct (loop rest s1) as [s2 evs]. simpl in *.
    destruct k as [|k]; simpl.
    + intros [= <-]. exists env, s. by rewrite Hp.
    + apply IH.
Qed.

(** No run follows a run that returned. *)
Lemma poll_loop_return_last (script : list PollEnv) (s : S) (k : nat) (ev : PollEvent) :
  snd (loop script s) !! k = Some ev -> armed ev = Return ->
  length (snd (loop script s)) = Datatypes.S k.
Proof.
  revert s k. induction script as [|env rest IH]; intros s k; simpl; [done |].
  destruct (poll1 env s) as [s1 [| ms]].
  - destruct k as [|k]; simpl; done.
  - specialize (IH s1). destruct (loop rest s1) as [s2 evs]. simpl in *.
    destruct k as [|k]; simpl.
    + by intros [= <-].
    + intros Hk Hret. f_equal. by apply IH.
Qed.

(** The loop ends before its script only by a run that returned. *)
Lemma poll_loop_short (script : list PollEnv) (s : S) :
  (length (snd (loop script s)) < length script)%nat ->
  exists ev, last (snd (loop script s)) = Some ev /\ armed ev = Return.
Proof.
  revert s. induction script as [|env rest IH]; intros s; simpl; [lia |].
  destruct (poll1 env s) as [s1 [| ms]]; simpl.
  - intros _. by eexists.
  - specialize (IH s1). destruct (loop rest s1) as [s2 evs]. simpl in *.
    intros Hlt. destruct (IH ltac:(lia)) as (ev & Hlast & Hret).
    exists ev. split; [| assumption].
    destruct evs; [done | exact Hlast].
Qed.
End PollLoop.

(** One run of [poll], for any status callback: it arms no further timer
    exactly when the request returned a status that is ['done'] or ['error']
    and the callback returned normally on it; a failed request and a
    throwing callback arm the timer with [initialInterval]. *)
Lemma poll_outcomes {S : Type}
    (jobId : string) (onStatusUpdate : Api.JobStatus -> S -> S * completion unit)
    (initialInterval slowInterval fastPollDurationMs startTime : Z)
    (env : Api.PollEnv) (s : S) :
  (snd (Api.poll jobId onStatusUpdate initialInterval slowInterval
          fastPollDurationMs startTime env s) = Api.Return <->
   exists st, Api.getJobStatus (Api.http_now env) jobId = Normal st /\
              (Api.status st = "done" \/ Api.status st = "error") /\
              snd (onStatusUpdate st s) = Normal tt) /\
  (forall st, Api.getJobStatus (Api.http_now env) jobId = Normal st ->
              Api.status st <> "done" -> Api.status st <> "error" ->
              exists ms, snd (Api.poll jobId onStatusUpdate initialInterval slowInterval
                                fastPollDurationMs startTime env s) = Api.SetTimeout ms) /\
  (forall e, Api.getJobStatus (Api.http_now env) jobId = Throw e ->
             Api.poll jobId onStatusUpdate initialInterval slowInterval
               fastPollDurationMs startTime env s = (s, Api.SetTimeout initialInterval)) /\
  (forall st e, Api.getJobStatus (Api.http_now env) jobId = Normal st ->
                snd (onStatusUpdate st s) = Throw e ->
                snd (Api.poll jobId onStatusUpdate initialInterval slowInterval
                       fastPollDurationMs startTime env s) = Api.SetTimeout initialInterval).
Proof.
  pose proof (poll_cases jobId onStatusUpdate initialInterval slowInterval
                fastPollDurationMs startTime env s) as Hcase.
  repeat split.
  - intros Hret. inversion Hcase as [e Hg Hp | st s' e Hg Hcb Hp | st s' Hg Hcb Ht Hp
                                    | st s' Hg Hcb Ht Hp];
      rewrite <- Hp in Hret; try discriminate Hret.
    exists st. split; [assumption |]. split; [by apply is_terminal_spec |].
    by rewrite Hcb.
  - intros (st & Hg & Hterm%is_terminal_spec & Hcb).
    inversion Hcase as [e Hg' Hp | st' s' e Hg' Hcb' Hp | st' s' Hg' Hcb' Ht Hp
                        | st' s' Hg' Hcb' Ht Hp]; simpl;
      rewrite Hg in Hg'; try discriminate Hg'; injection Hg' as <-;
      try reflexivity.
    + rewrite Hcb' in Hcb. discriminate Hcb.
    + congruence.
  - intros st Hg Hd He.
    inversion Hcase as [e Hg' Hp | st' s' e Hg' Hcb' Hp | st' s' Hg' Hcb' Ht Hp
                        | st' s' Hg' Hcb' Ht Hp]; simpl; try by eexists.
    rewrite Hg in Hg'. injection Hg' as <-.
    apply is_terminal_spec in Ht as [? | ?]; contradiction.
  - intros e Hg. unfold Api.poll. by rewrite Hg.
  - intros st e Hg Hcb. unfold Api.poll. rewrite Hg.
    destruct (onStatusUpdate st s) as [s' c]. simpl in Hcb. by subst c.
Qed.

Section PollLoopRuns.
Import Api.
Context {S : Type}.
Variable jobId : string.
Variable onStatusUpdate : JobStatus -> S -> S * completion unit.
Variables initialInterval slowInterval fastPollDurationMs startTime : Z.

Local Abbreviation loop1 :=
  (poll_loop jobId onStatusUpdate initialInterval slowInterval fastPollDurationMs startTime).

(** The first run is always made. *)
Lemma poll_loop_first_run (env : PollEnv) (rest : list PollEnv) (s : S) :
  (0 < length (snd (loop1 (env :: rest) s)))%nat.
Proof.
  simpl. destruct (poll _ _ _ _ _ _ env s) as [s1 [| ms]]; simpl; [lia |].
  destruct (loop1 rest s1) as [s2 evs]. simpl. lia.
Qed.

(** A run that armed a timer is followed by the next run. *)
Lemma poll_loop_continues (script : list PollEnv) (s : S) (k : nat) (ev : PollEvent) :
  snd (loop1 script s) !! k = Some ev -> armed ev <> Return ->
  (Datatypes.S k < length script)%nat ->
  (Datatypes.S k < length (snd (loop1 script s)))%nat.
Proof.
  revert s k. induction script as [|env rest IH]; intros s k; simpl; [done |].
  destruct (poll _ _ _ _ _ _ env s) as [s1 [| ms]] eqn:Hp.
  - destruct k as [|k]; simpl; [| done]. intros [= <-] Harm. by contradiction Harm.
  - pose proof (IH s1) as IH1.
    destruct k as [|k].
    + intros _ _ Hlen. destruct rest as [|env' rest']; [simpl in Hlen; lia |].
      pose proof (poll_loop_first_run env' rest' s1) as Hfirst.
      destruct (loop1 (env' :: rest') s1) as [s2 evs]. simpl in *. lia.
    + destruct (loop1 rest s1) as [s2 evs]. simpl in *.
      intros Hk Harm Hlen. specialize (IH1 k Hk Harm). lia.
Qed.

(** Which runs the loop makes: run [k] is made exactly when the script
    reaches that far and no earlier run returned. *)
Lemma poll_loop_runs (script : list PollEnv) (s : S) (k : nat) :
  (k < length (snd (loop1 script s)))%nat <->
  (k < length script)%nat /\
  forall i ev, (i < k)%nat -> snd (loop1 script s) !! i = Some ev -> armed ev <> Return.
Proof.
  split.
  - intros Hk. split.
    + pose proof (poll_loop_length jobId onStatusUpdate initialInterval slowInterval
                    fastPollDurationMs startTime script s). lia.
    + intros i ev Hi Hev Hret.
      pose proof (poll_loop_return_last jobId onStatusUpdate initialInterval slowInterval
                    fastPollDurationMs startTime script s i ev Hev Hret). lia.
  - intros [Hlen Hgo]. induction k as [|k IH].
    + destruct script as [|env rest]; [simpl in Hlen; lia |]. apply poll_loop_first_run.
    + assert (Hk : (k < length (snd (loop1 script s)))%nat).
      { apply IH; [lia |]. intros i ev Hi. apply Hgo. lia. }
      destruct (lookup_lt_is_Some_2 _ _ Hk) as [ev Hev].
      apply (poll_loop_continues script s k ev Hev); [| assumption].
      apply (Hgo k ev); [lia | assumption].
Qed.
End PollLoopRuns.

(** What a run of the page's loop decides, read off the server's answer at
    the job's URL. *)
Lemma page_run_decision (u : Api.UploadJob)
    (initialInterval slowInterval fastPollDurationMs startTime : Z)
    (env : Api.PollEnv) (st : Page.PageState) :
  (snd (Api.poll (Api.up_job_id u) (Page.onStatusUpdate u) initialInterval slowInterval
          fastPollDurationMs startTime env st) = Api.Return <->
   exists js, Api.http_now env ("/api/v1/documents/" +:+ Api.up_job_id u) = inr js /\
              (Api.status js = "done" \/ Api.status js = "error")) /\
  (forall js, Api.http_now env ("/api/v1/documents/" +:+ Api.up_job_id u) = inr js ->
              Api.status js <> "done" -> Api.status js <> "error" ->
              exists ms, snd (Api.poll (Api.up_job_id u) (Page.onStatusUpdate u)
                                initialInterval slowInterval fastPollDurationMs startTime
                                env st) = Api.SetTimeout ms) /\
  (forall e, Api.http_now env ("/api/v1/documents/" +:+ Api.up_job_id u) = inl e ->
             snd (Api.poll (Api.up_job_id u) (Page.onStatusUpdate u) initialInterval
                    slowInterval fastPollDurationMs startTime env st)
             = Api.SetTimeout initialInterval).
Proof.
  unfold Api.poll, Api.getJobStatus, Api.status_url.
  destruct (Api.http_now env ("/api/v1/documents/" +:+ Api.up_job_id u)) as [e | js].
  - simpl. split; [| split].
    + split; [discriminate | intros (js & Hjs & _); discriminate Hjs].
    + intros js Hjs. discriminate Hjs.
    + reflexivity.
  - cbn -[String.eqb]. destruct (Api.is_terminal (Api.status js)) eqn:Hterm; simpl.
    + apply is_terminal_spec in Hterm. split; [| split].
      * split; [intros _; by exists js | reflexivity].
      * intros js' [= <-] Hd He. destruct Hterm; contradiction.
      * intros e He. discriminate He.
    + split; [| split].
      * split; [discriminate |]. intros (js' & [= <-] & Hdone).
        apply is_terminal_spec in Hdone. congruence.
      * intros js' _ _ _. by eexists.
      * intros e He. discriminate He.
Qed.

(** C1. For every job the page submitted, the poll loop started for it keeps
    asking for that job's status and stops exactly when the status it was
    answered is ['done'] or ['error']. Run [k] is made exactly when the
    script of the environment reaches that far and none of the earlier
    requests was answered ['done'] or ['error']. Every run reads the answer
    at the job's URL, [/api/v1/documents/<job id>]: it arms no further timer
    exactly when that answer is a record whose status is ['done'] or
    ['error']; on a record with any other status it arms a timer for another
    run, and on a failed request it arms one with [initialInterval]. The
    status callback is the one the page passes; the intervals are any, the
    defaults included. *)
Theorem poll_stops_exactly_on_terminal_status
    (u : Api.UploadJob) (initialInterval slowInterval fastPollDurationMs : option Z)
    (clock0 : Z) (script : list Api.PollEnv) (st : Page.PageState)
    (history : list Api.PollEvent) :
  snd (Api.pollJobStatus (Api.up_job_id u) (Page.onStatusUpdate u)
         initialInterval slowInterval fastPollDurationMs clock0 script st) = history ->
  (forall k : nat,
      (k < length history)%nat <->
      (k < length script)%nat /\
      forall (i : nat) env,
        (i < k)%nat -> script !! i = Some env ->
        ~ exists js, Api.http_now env ("/api/v1/documents/" +:+ Api.up_job_id u) = inr js /\
                     (Api.status js = "done" \/ Api.status js = "error")) /\
  (forall (k : nat) ev,
      history !! k = Some ev ->
      exists env,
        script !! k = Some env /\
        Api.requested ev = "/api/v1/documents/" +:+ Api.up_job_id u /\
        (Api.armed ev = Api.Return <->
         exists js, Api.http_now env ("/api/v1/documents/" +:+ Api.up_job_id u) = inr js /\
                    (Api.status js = "done" \/ Api.status js = "error")) /\
        (forall js, Api.http_now env ("/api/v1/documents/" +:+ Api.up_job_id u) = inr js ->
                    Api.status js <> "done" -> Api.status js <> "error" ->
                    exists ms, Api.armed ev = Api.SetTimeout ms) /\
        (forall e, Api.http_now env ("/api/v1/documents/" +:+ Api.up_job_id u) = inl e ->
                   Api.armed ev = Api.SetTimeout (default 100 initialInterval))).
Proof.
  intros <-. unfold Api.pollJobStatus.
  set (ii := default 100 initialInterval). set (si := default 500 slowInterval).
  set (fd := default 5000 fastPollDurationMs).
  assert (Hrun : forall (k : nat) ev,
             snd (Api.poll_loop (Api.up_job_id u) (Page.onStatusUpdate u) ii si fd clock0
                    script st) !! k = Some ev ->
             exists env sk,
               script !! k = Some env /\
               Api.requested ev = "/api/v1/documents/" +:+ Api.up_job_id u /\
               Api.armed ev = snd (Api.poll (Api.up_job_id u) (Page.onStatusUpdate u)
                                     ii si fd clock0 env sk)).
  { intros k ev Hev. apply poll_loop_lookup in Hev as (env & sk & Henv & ->).
    exists env, sk. by repeat split. }
  split.
  - intros k. rewrite poll_loop_runs. split; intros [Hlen Hgo]; (split; [exact Hlen |]).
    + intros i env Hi Henv Hterm.
      assert (Hik : (i < length (snd (Api.poll_loop (Api.up_job_id u) (Page.onStatusUpdate u)
                                        ii si fd clock0 script st)))%nat).
      { apply poll_loop_runs. split; [lia |]. intros j ev Hj. apply Hgo. lia. }
      destruct (lookup_lt_is_Some_2 _ _ Hik) as [ev Hev].
      destruct (Hrun i ev Hev) as (env' & sk & Henv' & _ & Harm).
      rewrite Henv in Henv'. injection Henv' as <-.
      apply (Hgo i ev Hi Hev). rewrite Harm.
      by apply (page_run_decision u ii si fd clock0 env sk).
    + intros i ev Hi Hev Hret.
      destruct (Hrun i ev Hev) as (env & sk & Henv & _ & Harm).
      apply (Hgo i env Hi Henv). rewrite Harm in Hret.
      by apply (page_run_decision u ii si fd clock0 env sk).
  - intros k ev Hev. destruct (Hrun k ev Hev) as (env & sk & Henv & Hreq & Harm).
    exists env. split; [assumption |]. split; [assumption |]. rewrite Harm.
    apply (page_run_decision u ii si fd clock0 env sk).
Qed.

Lemma poll_stops_exactly_on_terminal_status_witness :
  let u := Api.mkUploadJob "j1" "a.pdf" in
  let answering (status : string) : Api.Http :=
    fun _ => inr (Api.mkJobStatus "j1" status "" "") in
  let down : Api.Http := fun _ => inl (Api.mkAxiosError (Some 503)) in
  let script := [Api.mkPollEnv (answering "pending") 10; Api.mkPollEnv down 120;
                 Api.mkPollEnv (answering "processing") 230;
                 Api.mkPollEnv (answering "done") 340;
                 Api.mkPollEnv (answering "done") 450] in
  Api.armed <$> snd (Api.pollJobStatus "j1" (Page.onStatusUpdate u) None None None 0
                       script Page.initial)
    = [Api.SetTimeout 100; Api.SetTimeout 100; Api.SetTimeout 100; Api.Return] /\
  ((4 < length (snd (Api.pollJobStatus "j1" (Page.onStatusUpdate u) None None None 0
                       script Page.initial)))%nat <->
   (4 < length script)%nat /\
   forall (i : nat) env,
     (i < 4)%nat -> script !! i = Some env ->
     ~ exists js, Api.http_now env ("/api/v1/documents/" +:+ "j1") = inr js /\
                  (Api.status js = "done" \/ Api.status js = "error")).
Proof.
  intros u answering down script. split; [reflexivity |].
  exact (proj1 (poll_stops_exactly_on_terminal_status u None None None 0 script
                  Page.initial _ eq_refl) 4%nat).
Defined.

(** The callback matters to the loop only when it throws: with a callback
    that throws, a run that was answered ['done'] lands in the [catch] and
    arms the timer again. The page's callback does not throw. *)
Example poll_rearms_on_done_when_callback_throws :
  let reply := Api.mkJobStatus "j1" "done" "# Text" "Short" in
  let http : Api.Http := fun _ => inr reply in
  let throwing : Api.JobStatus -> unit -> unit * completion unit :=
    fun _ s => (s, Throw (mkError "render failed")) in
  Api.getJobStatus http "j1" = Normal reply /\
  snd (Api.poll "j1" throwing 100 500 5000 0 (Api.mkPollEnv http 40) tt)
    = Api.SetTimeout 100.
Proof. cbv zeta. split; reflexivity. Qed.

(** C7, as the code has it. In every run of the loop started by
    [pollJobStatus] with a callback that does not throw: when the request
    returned a status that is not terminal, the timer is armed with
    [initialInterval] (100 ms when left out) while the time elapsed since
    polling started is below [fastPollDurationMs] (5000 ms when left out),
    and with [slowInterval] (500 ms when left out) from then on; when the
    request failed, the timer is armed with [initialInterval] whatever the
    elapsed time; on a terminal status no timer is armed. *)
Theorem poll_delay_adaptive_after_success {S : Type}
    (jobId : string) (onStatusUpdate : Api.JobStatus -> S -> S * completion unit)
    (initialInterval slowInterval fastPollDurationMs : option Z)
    (clock0 : Z) (script : list Api.PollEnv) (s : S)
    (k : nat) (env : Api.PollEnv) (ev : Api.PollEvent) :
  (forall st s0, snd (onStatusUpdate st s0) = Normal tt) ->
  script !! k = Some env ->
  snd (Api.pollJobStatus jobId onStatusUpdate initialInterval slowInterval
         fastPollDurationMs clock0 script s) !! k = Some ev ->
  match Api.getJobStatus (Api.http_now env) jobId with
  | Normal st =>
      Api.armed ev =
        if Api.is_terminal (Api.status st) then Api.Return
        else Api.SetTimeout
               (if Api.date_now env - clock0 <? default 5000 fastPollDurationMs
                then default 100 initialInterval
                else default 500 slowInterval)
  | Throw _ => Api.armed ev = Api.SetTimeout (default 100 initialInterval)
  end.
Proof.
  intros Hcb Henv Hev. unfold Api.pollJobStatus in Hev.
  apply poll_loop_lookup in Hev as (env' & sk & Henv' & ->).
  rewrite Henv in Henv'. injection Henv' as <-. simpl.
  unfold Api.poll.
  destruct (Api.getJobStatus (Api.http_now env) jobId) as [st | e]; [| reflexivity].
  specialize (Hcb st sk). destruct (onStatusUpdate st sk) as [s' c].
  simpl in Hcb. subst c. by destruct (Api.is_terminal (Api.status st)).
Qed.

Lemma poll_delay_adaptive_after_success_witness :
  let u := Api.mkUploadJob "j1" "a.pdf" in
  let processing : Api.Http := fun _ => inr (Api.mkJobStatus "j1" "processing" "" "") in
  let script := [Api.mkPollEnv processing 1040; Api.mkPollEnv processing 6200] in
  snd (Api.pollJobStatus "j1" (Page.onStatusUpdate u) None None None 1000 script
         Page.initial)
    = [Api.mkPollEvent "/api/v1/documents/j1" (Api.SetTimeout 100);
       Api.mkPollEvent "/api/v1/documents/j1" (Api.SetTimeout 500)] /\
  Api.armed (Api.mkPollEvent "/api/v1/documents/j1" (Api.SetTimeout 500))
    = Api.SetTimeout 500.
Proof.
  intros u processing script. split; [reflexivity |].
  exact (poll_delay_adaptive_after_success "j1" (Page.onStatusUpdate u) None None None
           1000 script Page.initial
           1%nat (Api.mkPollEnv processing 6200)
           (Api.mkPollEvent "/api/v1/documents/j1" (Api.SetTimeout 500))
           (fun _ _ => eq_refl) eq_refl eq_refl).
Defined.

(** C7 as the specification states it fails: more than 5000 ms after polling
    started a status request fails, and the next request is scheduled after
    [initialInterval] (100 ms), not after [slowInterval] (500 ms). *)
Lemma failed_request_retries_fast_after_five_seconds :
  let u := Api.mkUploadJob "j1" "a.pdf" in
  let down : Api.Http := fun _ => inl (Api.mkAxiosError None) in
  (6000 - 0 <? 5000) = false /\
  snd (Api.pollJobStatus "j1" (Page.onStatusUpdate u) None None None 0
         [Api.mkPollEnv down 6000] Page.initial)
    = [Api.mkPollEvent "/api/v1/documents/j1" (Api.SetTimeout 100)] /\
  Api.SetTimeout 100 <> Api.SetTimeout 500.
Proof. cbv zeta. split; [reflexivity | split; [reflexivity | discriminate]]. Qed.

(** ** The status lookup as the client sees it *)

Section Lookup.
Import Api.
Context {S : Type}.
Variable jobId : string.
Variable onStatusUpdate : JobStatus -> S -> S * completion unit.
Variables initialInterval slowInterval fastPollDurationMs startTime : Z.



End Lookup.




(** * Further properties *)

(** ** The job list: writing and reading back *)

Lemma findIndex_from_at {A : Type} (p : A -> bool) (l : list A) (i : Z) (n : nat) (x : A) :
  l !! n = Some x -> p x = true -> Forall (fun y => p y = false) (take n l) ->
  findIndex_from p l i = i + Z.of_nat n.
Proof.
  revert i n. induction l as [|a l IH]; intros i n Hn Hpx Hbefore; [done |].
  destruct n as [|n]; simpl in *.
  - injection Hn as ->. rewrite Hpx. lia.
  - apply Forall_cons in Hbefore as [Hpa Hbefore]. rewrite Hpa.
    rewrite (IH (i + 1) n Hn Hpx Hbefore). lia.
Qed.

Lemma findIndex_from_none {A : Type} (p : A -> bool) (l : list A) (i : Z) :
  Forall (fun y => p y = false) l -> findIndex_from p l i = -1.
Proof.
  revert i. induction l as [|a l IH]; intros i Hall; simpl; [reflexivity |].
  apply Forall_cons in Hall as [Hpa Hall]. rewrite Hpa. by apply IH.
Qed.

Lemma find_at {A : Type} (p : A -> bool) (l : list A) (n : nat) (x : A) :
  l !! n = Some x -> p x = true -> Forall (fun y => p y = false) (take n l) ->
  List.find p l = Some x.
Proof.
  revert n. induction l as [|a l IH]; intros n Hn Hpx Hbefore; [done |].
  destruct n as [|n]; simpl in *.
  - injection Hn as ->. by rewrite Hpx.
  - apply Forall_cons in Hbefore as [Hpa Hbefore]. rewrite Hpa. by eapply IH.
Qed.

Lemma find_insert_other {A : Type} (p : A -> bool) (l : list A) (n : nat) (old new : A) :
  l !! n = Some old -> p old = false -> p new = false ->
  List.find p (<[n := new]> l) = List.find p l.
Proof.
  revert n. induction l as [|a l IH]; intros n Hn Hold Hnew; [done |].
  destruct n as [|n]; simpl in *.
  - injection Hn as ->. by rewrite Hold, Hnew.
  - destruct (p a); [reflexivity | by apply IH].
Qed.

Lemma find_snoc {A : Type} (p : A -> bool) (l : list A) (x : A) :
  List.find p (l ++ [x]) =
    match List.find p l with
    | Some y => Some y
    | None => if p x then Some x else None
    end.
Proof.
  induction l as [|a l IH]; simpl; [reflexivity |].
  destruct (p a); [reflexivity | exact IH].
Qed.

Lemma find_all_false {A : Type} (p : A -> bool) (l : list A) :
  Forall (fun y => p y = false) l -> List.find p l = None.
Proof.
  induction l as [|a l IH]; intros Hall; simpl; [reflexivity |].
  apply Forall_cons in Hall as [Hpa Hall]. rewrite Hpa. by apply IH.
Qed.

Section JobListMore.
Import Page.

Lemma upsertJob_at (job old : Job) (prev : list Job) (i : nat) :
  prev !! i = Some old -> jobId old = jobId job ->
  Forall (fun j => jobId j <> jobId job) (take i prev) ->
  upsertJob job prev = <[i := job]> prev.
Proof.
  intros Hi Hid Hbefore. unfold upsertJob, findIndex.
  rewrite (findIndex_from_at _ prev 0 i old Hi).
  - replace (negb (0 + Z.of_nat i =? -1)) with true
      by (symmetry; apply negb_true_iff, Z.eqb_neq; lia).
    by rewrite Z.add_0_l, Nat2Z.id.
  - by apply String.eqb_eq.
  - eapply Forall_impl; [exact Hbefore |]. intros j Hj. by apply String.eqb_neq.
Qed.

Lemma upsertJob_fresh (job : Job) (prev : list Job) :
  Forall (fun j => jobId j <> jobId job) prev ->
  upsertJob job prev = prev ++ [job].
Proof.
  intros Hall. unfold upsertJob, findIndex.
  rewrite findIndex_from_none; [reflexivity |].
  eapply Forall_impl; [exact Hall |]. intros j Hj. by apply String.eqb_neq.
Qed.
End JobListMore.

(** X1. The last write wins: entering a record for a job id and then another
    record for the same job id leaves the list as entering the second one
    alone does. In particular entering the same record twice is entering it
    once. *)
Theorem upsertJob_last_write_wins (a b : Page.Job) (prev : list Page.Job) :
  Page.jobId a = Page.jobId b ->
  Page.upsertJob a (Page.upsertJob b prev) = Page.upsertJob a prev.
Proof.
  intros Hab.
  destruct (upsertJob_cases b prev) as [(i & old & Hi & Hid & Hbefore & ->) | [Hall ->]].
  - assert (Hlt : (i < length prev)%nat) by (by eapply lookup_lt_Some).
    rewrite (upsertJob_at a b (<[i := b]> prev) i).
    + rewrite list_insert_insert_eq. symmetry.
      apply (upsertJob_at a old prev i Hi); [congruence |].
      eapply Forall_impl; [exact Hbefore |]. simpl. intros j Hj. congruence.
    + by apply list_lookup_insert_eq.
    + by symmetry.
    + rewrite take_insert_ge by lia.
      eapply Forall_impl; [exact Hbefore |]. simpl. intros j Hj. congruence.
  - assert (Hall' : Forall (fun j => Page.jobId j <> Page.jobId a) prev).
    { eapply Forall_impl; [exact Hall |]. simpl. intros j Hj. congruence. }
    rewrite (upsertJob_at a b (prev ++ [b]) (length prev)).
    + rewrite (upsertJob_fresh a prev Hall').
      replace (length prev) with (length prev + 0)%nat by lia.
      by rewrite insert_app_r.
    + by apply list_lookup_middle.
    + by symmetry.
    + by rewrite take_app_length.
Qed.

Lemma upsertJob_last_write_wins_witness :
  let pending := Page.mkJob "j1" "a.pdf" "pending" "" "" in
  let done := Page.mkJob "j1" "a.pdf" "done" "short" "# A" in
  let other := Page.mkJob "j2" "b.pdf" "processing" "" "" in
  Page.upsertJob done (Page.upsertJob pending [other]) = [other; done] /\
  Page.upsertJob done (Page.upsertJob pending [other]) = Page.upsertJob done [other].
Proof.
  intros pending done other. split; [reflexivity |].
  exact (upsertJob_last_write_wins done pending [other] eq_refl).
Defined.

(** X2. The order of the history is stable: [upsertJob] leaves the sequence
    of job ids as it is when the job's id is already listed, and puts the
    id at the end when it is not. *)
Theorem upsertJob_keeps_order (job : Page.Job) (prev : list Page.Job) :
  (Page.jobId <$> Page.upsertJob job prev) =
    if decide (Page.jobId job ∈ (Page.jobId <$> prev))
    then Page.jobId <$> prev
    else (Page.jobId <$> prev) ++ [Page.jobId job].
Proof.
  destruct (upsertJob_cases job prev) as [(i & old & Hi & Hid & _ & ->) | [Hall ->]].
  - rewrite decide_True.
    + rewrite list_fmap_insert. apply list_insert_id.
      rewrite list_lookup_fmap, Hi. simpl. by rewrite Hid.
    + rewrite <- Hid. apply list_elem_of_fmap_2. apply list_elem_of_lookup. by exists i.
  - rewrite decide_False; [by rewrite fmap_app |].
    intros (j & Hj & Hin)%list_elem_of_fmap.
    rewrite Forall_forall in Hall. by apply (Hall j Hin).
Qed.

Section ReadBack.
Import Page.

Lemma upsertJob_find_same (job : Job) (prev : list Job) :
  List.find (fun j => (jobId j =? jobId job)%string) (upsertJob job prev) = Some job.
Proof.
  destruct (upsertJob_cases job prev) as [(i & old & Hi & Hid & Hbefore & ->) | [Hall ->]].
  - apply (find_at _ _ i).
    + apply list_lookup_insert_eq. by eapply lookup_lt_Some.
    + apply String.eqb_refl.
    + rewrite take_insert_ge by lia.
      eapply Forall_impl; [exact Hbefore |]. intros j Hj. by apply String.eqb_neq.
  - rewrite find_snoc, String.eqb_refl.
    rewrite find_all_false; [reflexivity |].
    eapply Forall_impl; [exact Hall |]. intros j Hj. by apply String.eqb_neq.
Qed.

Lemma upsertJob_find_other (job : Job) (prev : list Job) (id : string) :
  jobId job <> id ->
  List.find (fun j => (jobId j =? id)%string) (upsertJob job prev) =
  List.find (fun j => (jobId j =? id)%string) prev.
Proof.
  intros Hne.
  destruct (upsertJob_cases job prev) as [(i & old & Hi & Hid & Hbefore & ->) | [Hall ->]].
  - apply (find_insert_other _ _ _ old); [assumption | |];
      apply String.eqb_neq; congruence.
  - rewrite find_snoc. apply String.eqb_neq in Hne. rewrite Hne.
    by destruct (List.find _ prev).
Qed.
End ReadBack.

(** X3. Reading back: after [upsertJob job], looking a job up by the id of
    [job] (as [selectedJob] does, with [find]) yields [job] itself, and
    looking up any other id yields what it yielded before. *)
Theorem find_after_upsertJob (job : Page.Job) (prev : list Page.Job) (id : string) :
  List.find (fun j => (Page.jobId j =? id)%string) (Page.upsertJob job prev) =
    if (Page.jobId job =? id)%string then Some job
    else List.find (fun j => (Page.jobId j =? id)%string) prev.
Proof.
  destruct (String.eqb_spec (Page.jobId job) id) as [<- | Hne].
  - apply upsertJob_find_same.
  - by apply upsertJob_find_other.
Qed.

(** ** What the page shows *)

Section HomeRuns.
Import Page.

Lemma upsertJob_ids_grow (job : Job) (prev : list Job) (id : string) :
  id ∈ (jobId <$> prev) -> id ∈ (jobId <$> upsertJob job prev).
Proof.
  intros Hid. destruct (upsertJob_ids job prev) as [-> | [_ ->]]; [assumption |].
  apply elem_of_app. by left.
Qed.

Lemma fold_upsertNew_ids_grow (ups : list Api.UploadJob) (js : list Job) (id : string) :
  id ∈ (jobId <$> js) -> id ∈ (jobId <$> fold_left upsertNew ups js).
Proof.
  revert js. induction ups as [|u ups IH]; simpl; intros js Hid; [assumption |].
  apply IH. by apply upsertJob_ids_grow.
Qed.

Lemma page_step_well_formed (ev : Page.Event) (st : PageState) :
  Home.well_formed st -> Home.well_formed (Page.step ev st).
Proof.
  intros [Hnd Hsel]. split; [by apply step_NoDup |].
  destruct ev as [[ups | e] | u js | u |]; simpl; intros id Hid.
  - destruct ups as [|u ups].
    + simpl. by apply Hsel.
    + injection Hid as <-.
      destruct (fold_upsertNew_elem (u :: ups) (jobs st) u) as (u' & _ & Hu' & Hin);
        [by left |].
      rewrite <- Hu'. by apply (list_elem_of_fmap_2 jobId _ (newJob u')).
  - by apply Hsel.
  - apply upsertJob_ids_grow. by apply Hsel.
  - apply upsertJob_ids_grow. by apply Hsel.
  - discriminate.
Qed.

Lemma home_step_well_formed (ev : Home.Event) (st : PageState) :
  Home.well_formed st -> Home.well_formed (Home.step ev st).
Proof.
  intros Hwf. destruct ev as [e | i]; simpl; [by apply page_step_well_formed |].
  destruct (jobs st !! i) as [job |] eqn:Hi; [| assumption].
  destruct Hwf as [Hnd _]. split; [assumption |]. simpl.
  intros id [= <-]. apply list_elem_of_fmap_2. apply list_elem_of_lookup. by exists i.
Qed.

Lemma home_run_well_formed (evs : list Home.Event) (st : PageState) :
  Home.well_formed st -> Home.well_formed (Home.run evs st).
Proof.
  revert st. induction evs as [|ev evs IH]; simpl; intros st Hwf; [assumption |].
  apply IH. by apply home_step_well_formed.
Qed.

Lemma initial_well_formed : Home.well_formed Page.initial.
Proof. split; [constructor | discriminate]. Qed.

Lemma selectedJob_listed (st : PageState) (id : string) :
  selectedJobId st = Some id -> id ∈ (jobId <$> jobs st) ->
  exists j, Home.selectedJob st = Some j /\ jobId j = id /\ j ∈ jobs st.
Proof.
  intros Hsel (j & -> & Hj)%list_elem_of_fmap. unfold Home.selectedJob. rewrite Hsel.
  destruct (List.find _ (jobs st)) as [j' |] eqn:Hfind.
  - apply find_some in Hfind as [Hin Heq%String.eqb_eq].
    exists j'. repeat split; [assumption | by apply list_elem_of_In].
  - apply find_none with (x := j) in Hfind; [| by apply list_elem_of_In].
    by rewrite String.eqb_refl in Hfind.
Qed.

Lemma mainContent_selected (st : PageState) (j : Job) :
  Home.selectedJob st = Some j ->
  Home.mainContent st =
    Home.ShowViewer (DocumentViewer.DocumentViewer (Some (jobId j))
                       (status j) (markdown j) (summary j)).
Proof.
  intros Hsel. unfold Home.mainContent. rewrite Hsel.
  destruct (jobs st) eqn:Hjobs; [| reflexivity].
  unfold Home.selectedJob in Hsel. by rewrite Hjobs in Hsel.
Qed.

End HomeRuns.

(** X4. Whenever a job is selected, its viewer is what the page shows: in
    every state the page reaches (uploads, status updates, clicks in the
    history, "Process More Documents"), a selected job id names a listed
    job, and the main area is the viewer of that job. *)
Theorem selected_job_is_shown (evs : list Home.Event) (id : string) :
  Page.selectedJobId (Home.run evs Page.initial) = Some id ->
  exists j, j ∈ Page.jobs (Home.run evs Page.initial) /\ Page.jobId j = id /\
            Home.selectedJob (Home.run evs Page.initial) = Some j /\
            Home.mainContent (Home.run evs Page.initial) =
              Home.ShowViewer (DocumentViewer.DocumentViewer (Some id)
                                 (Page.status j) (Page.markdown j) (Page.summary j)).
Proof.
  intros Hsel.
  destruct (home_run_well_formed evs _ initial_well_formed) as [_ Hlisted].
  destruct (selectedJob_listed _ id Hsel (Hlisted id Hsel)) as (j & Hj & Hid & Hin).
  exists j. repeat split; try assumption.
  rewrite (mainContent_selected _ j Hj). by rewrite Hid.
Qed.

Lemma selected_job_is_shown_witness :
  let a := Api.mkUploadJob "j1" "a.pdf" in
  let b := Api.mkUploadJob "j2" "b.pdf" in
  let evs := [Home.PageEvent (Page.Submitted (Normal [a; b])); Home.SidebarClick 1;
              Home.PageEvent (Page.StatusArrived b
                                (Api.mkJobStatus "j2" "done" "# B" "short"))] in
  Page.selectedJobId (Home.run evs Page.initial) = Some "j2" /\
  exists j, j ∈ Page.jobs (Home.run evs Page.initial) /\ Page.jobId j = "j2" /\
            Home.selectedJob (Home.run evs Page.initial) = Some j /\
            Home.mainContent (Home.run evs Page.initial) =
              Home.ShowViewer (DocumentViewer.DocumentViewer (Some "j2")
                                 (Page.status j) (Page.markdown j) (Page.summary j)).
Proof.
  intros a b evs. split; [reflexivity |].
  exact (selected_job_is_shown evs "j2" eq_refl).
Defined.

(** X5. After an upload that was answered with at least one job, the page
    shows the viewer of the first of these jobs, pending at 25 percent and
    without any result card, whatever happened on the page before. *)
Theorem upload_shows_first_job_pending
    (evs : list Home.Event) (u : Api.UploadJob) (ups : list Api.UploadJob) :
  Api.up_job_id u <> "" ->
  Page.selectedJobId (fst (Page.handleSubmit (Normal (u :: ups))
                             (Home.run evs Page.initial))) = Some (Api.up_job_id u) /\
  Home.mainContent (fst (Page.handleSubmit (Normal (u :: ups))
                           (Home.run evs Page.initial))) =
    Home.ShowViewer
      (Some (DocumentViewer.mkView "Pending - Waiting for processing" 25 None None None)).
Proof.
  intros Hid. split; [reflexivity |].
  set (st := Home.run evs Page.initial).
  set (st' := fst (Page.handleSubmit (Normal (u :: ups)) st)).
  assert (Hwf : Home.well_formed st').
  { apply (page_step_well_formed (Page.Submitted (Normal (u :: ups))) st).
    apply home_run_well_formed, initial_well_formed. }
  destruct Hwf as [Hnd Hlisted].
  assert (Hsel : Page.selectedJobId st' = Some (Api.up_job_id u)) by reflexivity.
  destruct (selectedJob_listed st' _ Hsel (Hlisted _ Hsel)) as (j & Hj & Hjid & Hin).
  destruct (fold_upsertNew_elem (u :: ups) (Page.jobs st) u) as (u' & _ & Hu' & Hin');
    [by left |].
  assert (j = Page.newJob u') as ->.
  { eapply NoDup_fmap_eq; [exact Hnd | exact Hin | exact Hin' |]. simpl. congruence. }
  rewrite (mainContent_selected st' _ Hj). simpl. rewrite Hu'.
  unfold DocumentViewer.DocumentViewer.
  destruct (String.eqb_spec (Api.up_job_id u) "") as [? | _]; [contradiction |].
  reflexivity.
Qed.

Lemma upload_shows_first_job_pending_witness :
  let a := Api.mkUploadJob "j1" "a.pdf" in
  "j1" <> "" /\
  Home.mainContent (fst (Page.handleSubmit (Normal [a]) (Home.run [] Page.initial))) =
    Home.ShowViewer
      (Some (DocumentViewer.mkView "Pending - Waiting for processing" 25 None None None)).
Proof.
  intros a. assert (Hid : "j1" <> "") by discriminate. split; [exact Hid |].
  exact (proj2 (upload_shows_first_job_pending [] a [] Hid)).
Defined.

Section Resurrection.
Import Page.

Lemma status_run_selection (updates : list (Api.UploadJob * Api.JobStatus)) (st : PageState) :
  selectedJobId (Page.run (Home.statusEvents updates) st) = selectedJobId st.
Proof.
  revert st. induction updates as [|[u js] updates IH]; intros st; simpl; [reflexivity |].
  unfold Page.run in IH. by rewrite IH.
Qed.

Lemma status_run_listed (updates : list (Api.UploadJob * Api.JobStatus)) (st : PageState)
    (u : Api.UploadJob) (js : Api.JobStatus) :
  (u, js) ∈ updates ->
  Api.up_job_id u ∈ (jobId <$> jobs (Page.run (Home.statusEvents updates) st)).
Proof.
  revert st. induction updates as [|[u' js'] updates IH] using rev_ind; intros st Hin.
  - by apply elem_of_nil in Hin.
  - unfold Home.statusEvents, Page.run. rewrite fmap_app, fold_left_app. simpl.
    apply elem_of_app in Hin as [Hin | Hin%list_elem_of_singleton].
    + apply upsertJob_ids_grow. by apply IH.
    + injection Hin as <- <-.
      apply (list_elem_of_fmap_2 jobId _ (statusJob u js)), upsertJob_elem.
Qed.
End Resurrection.

(** X6. Clearing the list does not stop the poll loops. When status updates
    arrive after "Process More Documents" was clicked, their jobs are back
    in the list while nothing is selected: the page then shows neither the
    upload form nor a viewer, no history entry is highlighted, and the
    button "Process More Documents" is offered again. *)
Theorem status_update_after_clearing
    (st : Page.PageState) (updates : list (Api.UploadJob * Api.JobStatus))
    (u : Api.UploadJob) (jobStatus : Api.JobStatus) :
  (u, jobStatus) ∈ updates ->
  Api.up_job_id u ∈
    (Page.jobId <$> Page.jobs (Page.run (Page.ProcessMore :: Home.statusEvents updates) st)) /\
  Page.selectedJobId (Page.run (Page.ProcessMore :: Home.statusEvents updates) st) = None /\
  Home.mainContent (Page.run (Page.ProcessMore :: Home.statusEvents updates) st)
    = Home.ShowNothing /\
  Home.processMoreButton (Page.run (Page.ProcessMore :: Home.statusEvents updates) st)
    = true /\
  exists items,
    Home.Sidebar (Page.run (Page.ProcessMore :: Home.statusEvents updates) st) = Some items /\
    Forall (fun item => Home.highlighted item = false) items.
Proof.
  intros Hin.
  set (st0 := Page.step Page.ProcessMore st).
  change (Page.run (Page.ProcessMore :: Home.statusEvents updates) st)
    with (Page.run (Home.statusEvents updates) st0).
  pose proof (status_run_listed updates st0 u jobStatus Hin) as Hlisted.
  pose proof (status_run_selection updates st0) as Hsel. simpl in Hsel.
  set (st1 := Page.run (Home.statusEvents updates) st0) in *.
  split; [assumption |]. split; [assumption |].
  unfold Home.mainContent, Home.selectedJob, Home.processMoreButton, Home.Sidebar.
  rewrite Hsel.
  destruct (Page.jobs st1) as [|j js] eqn:Hjobs; [by apply elem_of_nil in Hlisted |].
  split; [| split; [reflexivity |]].
  - rewrite find_all_false; [reflexivity |]. by apply Forall_forall.
  - eexists. split; [reflexivity |].
    apply Forall_forall. intros item (j' & -> & _)%list_elem_of_fmap. reflexivity.
Qed.

Lemma status_update_after_clearing_witness :
  let u := Api.mkUploadJob "j1" "a.pdf" in
  let reply := Api.mkJobStatus "j1" "processing" "" "" in
  let st := Page.run [Page.Submitted (Normal [u])] Page.initial in
  Home.mainContent (Page.run [Page.ProcessMore] st) = Home.ShowFileUpload false /\
  Home.mainContent (Page.run (Page.ProcessMore :: Home.statusEvents [(u, reply)]) st)
    = Home.ShowNothing.
Proof.
  intros u reply st. split; [reflexivity |].
  assert (Hin : (u, reply) ∈ [(u, reply)]) by (by apply list_elem_of_singleton).
  exact (proj1 (proj2 (proj2 (status_update_after_clearing st [(u, reply)] u reply Hin)))).
Defined.


(** ** The poll loop and the page *)

Section PagePolls.
Import Page.
Variable u : Api.UploadJob.
Variables initialInterval slowInterval fastPollDurationMs startTime : Z.

Local Abbreviation page_poll :=
  (Api.poll (Api.up_job_id u) (onStatusUpdate u) initialInterval slowInterval
     fastPollDurationMs startTime).
Local Abbreviation page_loop :=
  (Api.poll_loop (Api.up_job_id u) (onStatusUpdate u) initialInterval slowInterval
     fastPollDurationMs startTime).

(** One run of [poll] with the page's callback: the list is untouched when
    the request failed, and holds the answered record otherwise. *)
Lemma page_poll_cases (env : Api.PollEnv) (st : PageState) :
  (exists e, Api.getJobStatus (Api.http_now env) (Api.up_job_id u) = Throw e /\
             page_poll env st = (st, Api.SetTimeout initialInterval)) \/
  (exists js, Api.getJobStatus (Api.http_now env) (Api.up_job_id u) = Normal js /\
              fst (page_poll env st) = setJobs (upsertJob (statusJob u js)) st /\
              (snd (page_poll env st) = Api.Return <->
               Api.is_terminal (Api.status js) = true)).
Proof.
  unfold Api.poll.
  destruct (Api.getJobStatus (Api.http_now env) (Api.up_job_id u)) as [js | e].
  - right. exists js. split; [reflexivity |]. simpl.
    destruct (Api.is_terminal (Api.status js)); simpl; split; try reflexivity;
      split; intros H; try reflexivity; discriminate H.
  - left. by exists e.
Qed.

Lemma page_loop_final (script : list Api.PollEnv) (st : PageState) (ev : Api.PollEvent) :
  last (snd (page_loop script st)) = Some ev -> Api.armed ev = Api.Return ->
  exists env js,
    env ∈ script /\
    Api.getJobStatus (Api.http_now env) (Api.up_job_id u) = Normal js /\
    Api.is_terminal (Api.status js) = true /\
    List.find (fun j => (jobId j =? Api.up_job_id u)%string)
      (jobs (fst (page_loop script st))) = Some (statusJob u js).
Proof.
  revert st. induction script as [|env rest IH]; intros st; simpl; [done |].
  destruct (page_poll_cases env st) as [(e & Hg & Hp) | (js & Hg & Hst & Hret)].
  - rewrite Hp. specialize (IH st).
    destruct (page_loop rest st) as [s2 evs]. simpl in *.
    rewrite last_cons. destruct (last evs) as [ev' |] eqn:Hlast.
    + intros [= <-] Harm. destruct (IH eq_refl Harm) as (env' & js & Hin & H).
      exists env', js. split; [by right | exact H].
    + by intros [= <-].
  - destruct (page_poll env st) as [s1 nx] eqn:Hp. simpl in Hst, Hret. subst s1.
    destruct nx as [| ms].
    + simpl. intros [= <-] _. exists env, js.
      split; [by left |]. split; [assumption |]. split; [by apply Hret |].
      apply (upsertJob_find_same (statusJob u js)).
    + specialize (IH (setJobs (upsertJob (statusJob u js)) st)).
      destruct (page_loop rest _) as [s2 evs]. simpl in *.
      rewrite last_cons. destruct (last evs) as [ev' |] eqn:Hlast.
      * intros [= <-] Harm. destruct (IH eq_refl Harm) as (env' & js' & Hin & H).
        exists env', js'. split; [by right | exact H].
      * by intros [= <-].
Qed.

Lemma page_loop_other (script : list Api.PollEnv) (st : PageState) (id : string) :
  id <> Api.up_job_id u ->
  List.find (fun j => (jobId j =? id)%string) (jobs (fst (page_loop script st))) =
  List.find (fun j => (jobId j =? id)%string) (jobs st).
Proof.
  intros Hne. revert st. induction script as [|env rest IH]; intros st; simpl; [reflexivity |].
  destruct (page_poll_cases env st) as [(e & Hg & Hp) | (js & Hg & Hst & Hret)].
  - rewrite Hp. specialize (IH st). by destruct (page_loop rest st).
  - destruct (page_poll env st) as [s1 nx]. simpl in Hst. subst s1.
    assert (Hone : List.find (fun j => (jobId j =? id)%string)
                     (jobs (setJobs (upsertJob (statusJob u js)) st)) =
                   List.find (fun j => (jobId j =? id)%string) (jobs st)).
    { simpl. apply upsertJob_find_other. simpl. congruence. }
    destruct nx as [| ms]; simpl; [exact Hone |].
    specialize (IH (setJobs (upsertJob (statusJob u js)) st)).
    destruct (page_loop rest _) as [s2 evs]. simpl in *. by rewrite IH.
Qed.

Lemma page_loop_rest (script : list Api.PollEnv) (st : PageState) :
  isUploading (fst (page_loop script st)) = isUploading st /\
  selectedJobId (fst (page_loop script st)) = selectedJobId st /\
  error (fst (page_loop script st)) = error st.
Proof.
  revert st. induction script as [|env rest IH]; intros st; simpl; [done |].
  destruct (page_poll_cases env st) as [(e & Hg & Hp) | (js & Hg & Hst & Hret)].
  - rewrite Hp. specialize (IH st). by destruct (page_loop rest st).
  - destruct (page_poll env st) as [s1 nx]. simpl in Hst. subst s1.
    destruct nx as [| ms]; simpl; [done |].
    specialize (IH (setJobs (upsertJob (statusJob u js)) st)).
    destruct (page_loop rest _) as [s2 evs]. simpl in *. exact IH.
Qed.
End PagePolls.

(** X8. When the poll loop of a job stops, the page holds the final answer:
    the record found under the job's id is built from a terminal status
    that one of the loop's requests was answered with (its status, summary
    and markdown, under the upload's file name). *)
Theorem stopped_loop_leaves_final_record
    (u : Api.UploadJob) (initialInterval slowInterval fastPollDurationMs : option Z)
    (clock0 : Z) (script : list Api.PollEnv) (st : Page.PageState) (ev : Api.PollEvent) :
  last (snd (Api.pollJobStatus (Api.up_job_id u) (Page.onStatusUpdate u)
               initialInterval slowInterval fastPollDurationMs clock0 script st)) = Some ev ->
  Api.armed ev = Api.Return ->
  exists env js,
    env ∈ script /\
    Api.getJobStatus (Api.http_now env) (Api.up_job_id u) = Normal js /\
    (Api.status js = "done" \/ Api.status js = "error") /\
    List.find (fun j => (Page.jobId j =? Api.up_job_id u)%string)
      (Page.jobs (fst (Api.pollJobStatus (Api.up_job_id u) (Page.onStatusUpdate u)
                         initialInterval slowInterval fastPollDurationMs clock0 script st)))
    = Some (Page.mkJob (Api.up_job_id u) (Api.up_filename u)
              (Api.status js) (Api.summary js) (Api.markdown js)).
Proof.
  unfold Api.pollJobStatus. intros Hlast Harm.
  destruct (page_loop_final u _ _ _ _ script st ev Hlast Harm)
    as (env & js & Hin & Hg & Hterm & Hfind).
  exists env, js. split; [assumption |]. split; [assumption |].
  split; [by apply is_terminal_spec | exact Hfind].
Qed.

Lemma stopped_loop_leaves_final_record_witness :
  let u := Api.mkUploadJob "j1" "a.pdf" in
  let answering (status markdown : string) : Api.Http :=
    fun _ => inr (Api.mkJobStatus "j1" status markdown "") in
  let script := [Api.mkPollEnv (answering "processing" "") 10;
                 Api.mkPollEnv (answering "done" "# A") 120] in
  Page.jobs (fst (Api.pollJobStatus "j1" (Page.onStatusUpdate u) None None None 0 script
                    (fst (Page.handleSubmit (Normal [u]) Page.initial))))
    = [Page.mkJob "j1" "a.pdf" "done" "" "# A"] /\
  exists env js,
    env ∈ script /\
    Api.getJobStatus (Api.http_now env) "j1" = Normal js /\
    (Api.status js = "done" \/ Api.status js = "error") /\
    List.find (fun j => (Page.jobId j =? "j1")%string)
      (Page.jobs (fst (Api.pollJobStatus "j1" (Page.onStatusUpdate u) None None None 0 script
                         (fst (Page.handleSubmit (Normal [u]) Page.initial)))))
    = Some (Page.mkJob "j1" "a.pdf" (Api.status js) (Api.summary js) (Api.markdown js)).
Proof.
  intros u answering script. split; [reflexivity |].
  exact (stopped_loop_leaves_final_record u None None None 0 script
           (fst (Page.handleSubmit (Normal [u]) Page.initial))
           (Api.mkPollEvent "/api/v1/documents/j1" Api.Return) eq_refl eq_refl).
Defined.

(** X9. A poll loop touches its own job only: whatever its requests are
    answered, the record found under any other job id, the selection, the
    upload flag and the error banner are after the loop what they were
    before. *)
Theorem poll_loop_touches_own_job_only
    (u : Api.UploadJob) (initialInterval slowInterval fastPollDurationMs : option Z)
    (clock0 : Z) (script : list Api.PollEnv) (st : Page.PageState) (id : string) :
  id <> Api.up_job_id u ->
  List.find (fun j => (Page.jobId j =? id)%string)
    (Page.jobs (fst (Api.pollJobStatus (Api.up_job_id u) (Page.onStatusUpdate u)
                       initialInterval slowInterval fastPollDurationMs clock0 script st)))
  = List.find (fun j => (Page.jobId j =? id)%string) (Page.jobs st) /\
  Page.selectedJobId (fst (Api.pollJobStatus (Api.up_job_id u) (Page.onStatusUpdate u)
                             initialInterval slowInterval fastPollDurationMs clock0 script st))
  = Page.selectedJobId st /\
  Page.isUploading (fst (Api.pollJobStatus (Api.up_job_id u) (Page.onStatusUpdate u)
                           initialInterval slowInterval fastPollDurationMs clock0 script st))
  = Page.isUploading st /\
  Page.error (fst (Api.pollJobStatus (Api.up_job_id u) (Page.onStatusUpdate u)
                     initialInterval slowInterval fastPollDurationMs clock0 script st))
  = Page.error st.
Proof.
  unfold Api.pollJobStatus. intros Hne.
  destruct (page_loop_rest u (default 100 initialInterval) (default 500 slowInterval)
              (default 5000 fastPollDurationMs) clock0 script st) as (Hup & Hsel & Herr).
  split; [by apply page_loop_other |]. by repeat split.
Qed.

Lemma poll_loop_touches_own_job_only_witness :
  let a := Api.mkUploadJob "j1" "a.pdf" in
  let b := Api.mkUploadJob "j2" "b.pdf" in
  let done : Api.Http := fun _ => inr (Api.mkJobStatus "j1" "done" "# A" "short") in
  let st := fst (Page.handleSubmit (Normal [a; b]) Page.initial) in
  "j2" <> "j1" /\
  List.find (fun j => (Page.jobId j =? "j2")%string)
    (Page.jobs (fst (Api.pollJobStatus "j1" (Page.onStatusUpdate a) None None None 0
                       [Api.mkPollEnv done 10] st)))
  = Some (Page.mkJob "j2" "b.pdf" "pending" "" "").
Proof.
  intros a b done st. assert (Hne : "j2" <> "j1") by discriminate.
  split; [exact Hne |].
  exact (eq_trans
           (proj1 (poll_loop_touches_own_job_only a None None None 0
                     [Api.mkPollEnv done 10] st "j2" Hne))
           eq_refl).
Defined.

(** X10. The loop never gives up on failures: as long as every status
    request is rejected, each run is followed by another one after
    [initialInterval], the callback is not called, and the caller's state
    is left as it was. *)
Theorem poll_loop_retries_forever {S : Type}
    (jobId : string) (onStatusUpdate : Api.JobStatus -> S -> S * completion unit)
    (initialInterval slowInterval fastPollDurationMs startTime : Z)
    (script : list Api.PollEnv) (s : S) :
  Forall (fun env => exists e, Api.http_now env (Api.status_url jobId) = inl e) script ->
  Api.poll_loop jobId onStatusUpdate initialInterval slowInterval fastPollDurationMs
    startTime script s
  = (s, (fun _ => Api.mkPollEvent (Api.status_url jobId) (Api.SetTimeout initialInterval))
          <$> script).
Proof.
  induction script as [|env rest IH]; intros Hall; simpl; [reflexivity |].
  apply Forall_cons in Hall as [[e He] Hall].
  unfold Api.poll, Api.getJobStatus. rewrite He. simpl.
  by rewrite (IH Hall).
Qed.

Lemma poll_loop_retries_forever_witness :
  let down : Api.Http := fun _ => inl (Api.mkAxiosError (Some 500)) in
  let u := Api.mkUploadJob "j1" "a.pdf" in
  Api.poll_loop "j1" (Page.onStatusUpdate u) 100 500 5000 0
    [Api.mkPollEnv down 10; Api.mkPollEnv down 7000; Api.mkPollEnv down 9000] Page.initial
  = (Page.initial,
     [Api.mkPollEvent "/api/v1/documents/j1" (Api.SetTimeout 100);
      Api.mkPollEvent "/api/v1/documents/j1" (Api.SetTimeout 100);
      Api.mkPollEvent "/api/v1/documents/j1" (Api.SetTimeout 100)]).
Proof.
  intros down u.
  apply (poll_loop_retries_forever "j1" (Page.onStatusUpdate u) 100 500 5000 0).
  repeat constructor; by exists (Api.mkAxiosError (Some 500)).
Defined.

(** ** The earlier poll loop *)

Section EarlierLoop.
Context {S : Type}.
Variable jobId : string.
Variable onStatusUpdate : Api.JobStatus -> S -> S * completion unit.
Variables interval maxAttempts : Z.

Local Abbreviation poll0 := (ApiV1.poll jobId onStatusUpdate interval maxAttempts).
Local Abbreviation loop0 := (ApiV1.poll_loop jobId onStatusUpdate interval maxAttempts).

(** The three ways one run goes, by the counter. *)
Lemma v1_poll_cases (http : Api.Http) (attempts : Z) (s : S) :
  (maxAttempts <= attempts /\
   poll0 http attempts s = (s, attempts, ApiV1.Rejected ApiV1.timeout_reached)) \/
  (attempts < maxAttempts /\
   exists s', poll0 http attempts s = (s', attempts, ApiV1.Returned)) \/
  (attempts < maxAttempts /\
   exists s', poll0 http attempts s = (s', attempts + 1, ApiV1.Armed interval)).
Proof.
  unfold ApiV1.poll. destruct (Z.leb_spec maxAttempts attempts) as [Hle | Hlt].
  - left. by split.
  - right.
    destruct (Api.getJobStatus http jobId) as [st | e].
    + destruct (onStatusUpdate st s) as [s' [[] | e]].
      * destruct (Api.is_terminal (Api.status st)).
        -- left. split; [assumption | by exists s'].
        -- right. split; [assumption | by exists s'].
      * right. split; [assumption | by exists s'].
    + right. split; [assumption | by exists s].
Qed.

Lemma v1_loop_bound (script : list Api.Http) (attempts : Z) (s : S) :
  (length (List.filter ApiV1.sent_request (snd (loop0 script attempts s)))
   <= Z.to_nat (maxAttempts - attempts))%nat /\
  (length (snd (loop0 script attempts s))
   <= Datatypes.S (Z.to_nat (maxAttempts - attempts)))%nat /\
  Forall (fun out => forall ms, out = ApiV1.Armed ms -> ms = interval)
    (snd (loop0 script attempts s)).
Proof.
  revert attempts s. induction script as [|http rest IH]; intros attempts s; simpl.
  - repeat split; [lia | lia | constructor].
  - destruct (v1_poll_cases http attempts s)
      as [[Hle Hp] | [[Hlt [s' Hp]] | [Hlt [s' Hp]]]]; rewrite Hp; simpl.
    + repeat split; [lia | lia |]. repeat constructor. discriminate.
    + repeat split; [lia | lia |]. repeat constructor. discriminate.
    + destruct (IH (attempts + 1) s') as (Hreq & Hlen & Hms).
      destruct (loop0 rest (attempts + 1) s') as [s2 outs]. simpl in *.
      repeat split; [lia | lia |].
      constructor; [| assumption]. by intros ms [= <-].
Qed.

Lemma v1_loop_timeout (script : list Api.Http) (attempts : Z) (s : S)
    (k : nat) (e : JsError) :
  snd (loop0 script attempts s) !! k = Some (ApiV1.Rejected e) ->
  e = ApiV1.timeout_reached /\ k = Z.to_nat (maxAttempts - attempts) /\
  length (snd (loop0 script attempts s)) = Datatypes.S k.
Proof.
  revert attempts s k. induction script as [|http rest IH]; intros attempts s k; simpl;
    [done |].
  destruct (v1_poll_cases http attempts s)
    as [[Hle Hp] | [[Hlt [s' Hp]] | [Hlt [s' Hp]]]]; rewrite Hp; simpl.
  - destruct k as [|k]; simpl; [| done]. intros [= <-]. repeat split. lia.
  - destruct k as [|k]; simpl; done.
  - specialize (IH (attempts + 1) s').
    destruct (loop0 rest (attempts + 1) s') as [s2 outs]. simpl in *.
    destruct k as [|k]; simpl; [done |].
    intros Hk. destruct (IH k Hk) as (-> & -> & Hlen).
    repeat split; [lia | by f_equal].
Qed.
End EarlierLoop.

(** X11. The earlier poll loop is bounded: it sends at most [maxAttempts]
    status requests (60 when left out), makes at most one run more than
    that, and every timer it arms waits [interval] (2000 ms when left
    out). *)
Theorem earlier_loop_is_bounded {S : Type}
    (jobId : string) (onStatusUpdate : Api.JobStatus -> S -> S * completion unit)
    (interval maxAttempts : option Z) (script : list Api.Http) (s : S) :
  (length (List.filter ApiV1.sent_request
             (snd (fst (ApiV1.pollJobStatus jobId onStatusUpdate interval maxAttempts
                          script s))))
   <= Z.to_nat (default 60%Z maxAttempts))%nat /\
  (length (snd (fst (ApiV1.pollJobStatus jobId onStatusUpdate interval maxAttempts
                       script s)))
   <= Datatypes.S (Z.to_nat (default 60%Z maxAttempts)))%nat /\
  Forall (fun out => forall ms, out = ApiV1.Armed ms -> ms = default 2000 interval)
    (snd (fst (ApiV1.pollJobStatus jobId onStatusUpdate interval maxAttempts script s))).
Proof.
  unfold ApiV1.pollJobStatus.
  pose proof (v1_loop_bound jobId onStatusUpdate (default 2000 interval)
                (default 60 maxAttempts) script 0 s) as Hb.
  destruct (ApiV1.poll_loop jobId onStatusUpdate (default 2000 interval)
              (default 60 maxAttempts) script 0 s) as [s' outs].
  simpl in *. by rewrite Z.sub_0_r in Hb.
Qed.

(** X12. In the earlier client the timeout never reaches the caller unless
    no attempt is allowed at all: the promise of [pollJobStatus] is rejected
    exactly when [maxAttempts] is zero or less, and resolved otherwise. The
    run that throws "Polling timeout reached" is run number [maxAttempts],
    started by a timer, and it is the last run. *)
Theorem earlier_timeout_reaches_nobody {S : Type}
    (jobId : string) (onStatusUpdate : Api.JobStatus -> S -> S * completion unit)
    (interval maxAttempts : option Z) (http : Api.Http) (rest : list Api.Http) (s : S) :
  snd (ApiV1.pollJobStatus jobId onStatusUpdate interval maxAttempts (http :: rest) s)
    = (if default 60 maxAttempts <=? 0 then Throw ApiV1.timeout_reached else Normal tt) /\
  forall k e,
    snd (fst (ApiV1.pollJobStatus jobId onStatusUpdate interval maxAttempts
                (http :: rest) s)) !! k = Some (ApiV1.Rejected e) ->
    e = ApiV1.timeout_reached /\ k = Z.to_nat (default 60%Z maxAttempts) /\
    length (snd (fst (ApiV1.pollJobStatus jobId onStatusUpdate interval maxAttempts
                        (http :: rest) s))) = Datatypes.S k.
Proof.
  unfold ApiV1.pollJobStatus.
  pose proof (v1_loop_timeout jobId onStatusUpdate (default 2000 interval)
                (default 60 maxAttempts) (http :: rest) 0 s) as Ht.
  rewrite Z.sub_0_r in Ht.
  split; [| destruct (ApiV1.poll_loop _ _ _ _ (http :: rest) 0 s) as [s' outs]; exact Ht].
  clear Ht. simpl.
  destruct (v1_poll_cases jobId onStatusUpdate (default 2000 interval)
              (default 60 maxAttempts) http 0 s)
    as [[Hle Hp] | [[Hlt [s' Hp]] | [Hlt [s' Hp]]]]; rewrite Hp; simpl.
  - by rewrite (proj2 (Z.leb_le _ _) Hle).
  - by rewrite (proj2 (Z.leb_gt _ _) Hlt).
  - destruct (ApiV1.poll_loop _ _ _ _ rest (0 + 1) s') as [s2 outs]. simpl.
    by rewrite (proj2 (Z.leb_gt _ _) Hlt).
Qed.

Example earlier_loop_two_attempts :
  let processing : Api.Http := fun _ => inr (Api.mkJobStatus "j1" "processing" "" "") in
  let quiet : Api.JobStatus -> unit -> unit * completion unit :=
    fun _ s => (s, Normal tt) in
  ApiV1.pollJobStatus "j1" quiet None (Some 2)
    [processing; processing; processing; processing] tt
  = (tt, [ApiV1.Armed 2000; ApiV1.Armed 2000; ApiV1.Rejected ApiV1.timeout_reached],
     Normal tt).
Proof. reflexivity. Qed.

(** ** The viewer and the history, status by status *)

(** X13. What the viewer shows goes with the progress it reports. It
    renders nothing exactly when there is no job id (null or empty).
    Otherwise the summary card and the content card come together; a content
    card and an error card never do; the progress is 100 exactly when a
    content card or an error card is shown, which is exactly when polling
    stops on that status; and the label is "Unknown status" exactly when
    the progress is 0. *)
Theorem viewer_cards_match_progress (jobId : option string) (status markdown summary : string) :
  match DocumentViewer.DocumentViewer jobId status markdown summary with
  | None => jobId = None \/ jobId = Some ""
  | Some v =>
      (exists id, jobId = Some id /\ id <> "") /\
      (is_Some (DocumentViewer.summaryCard v) <-> is_Some (DocumentViewer.contentCard v)) /\
      ~ (is_Some (DocumentViewer.contentCard v) /\ is_Some (DocumentViewer.errorCard v)) /\
      (DocumentViewer.percentage v = 100 <->
       is_Some (DocumentViewer.contentCard v) \/ is_Some (DocumentViewer.errorCard v)) /\
      (is_Some (DocumentViewer.contentCard v) \/ is_Some (DocumentViewer.errorCard v) <->
       Api.is_terminal status = true) /\
      (DocumentViewer.label v = "Unknown status" <-> DocumentViewer.percentage v = 0)
  end.
Proof.
  unfold DocumentViewer.DocumentViewer.
  destruct jobId as [id |]; [| by left].
  destruct (String.eqb_spec id "") as [-> | Hid]; [by right |].
  split; [by exists id |]. simpl.
  unfold DocumentViewer.getStatusPercentage, DocumentViewer.getStatusLabel, Api.is_terminal.
  destruct (String.eqb_spec status "pending") as [-> | H1];
    [simpl; repeat split; intros H; try discriminate H;
       try (destruct H as [H | H]; by apply is_Some_None in H);
       try (destruct H as [H _]; by apply is_Some_None in H); by apply is_Some_None in H |].
  destruct (String.eqb_spec status "processing") as [-> | H2];
    [simpl; repeat split; intros H; try discriminate H;
       try (destruct H as [H | H]; by apply is_Some_None in H);
       try (destruct H as [H _]; by apply is_Some_None in H); by apply is_Some_None in H |].
  destruct (String.eqb_spec status "done") as [-> | H3];
    [simpl; repeat split; intros H; try discriminate H; try reflexivity; eauto;
       destruct H as [_ H]; by apply is_Some_None in H |].
  destruct (String.eqb_spec status "error") as [-> | H4];
    [simpl; repeat split; intros H; try discriminate H; try reflexivity; eauto;
       try (destruct H as [H _]; by apply is_Some_None in H); by apply is_Some_None in H |].
  simpl; repeat split; intros H; try discriminate H; try reflexivity;
    try (destruct H as [H | H]; by apply is_Some_None in H);
    try (destruct H as [H _]; by apply is_Some_None in H); by apply is_Some_None in H.
Qed.

(** X14. The history agrees with the poll loop: an entry shows the spinner
    exactly for the statuses ['pending'] and ['processing'], on which the
    loop goes on polling, and the line "Error processing document" exactly
    for ['error'], on which it stops; no entry shows both. The spinner
    shows exactly when the viewer reports 25 or 50 percent. *)
Theorem sidebar_spinner_means_polling (selectedJobId : option string) (job : Page.Job) :
  (Home.spinner (Home.sidebarItem selectedJobId job) = true <->
   Page.status job = "pending" \/ Page.status job = "processing") /\
  (Home.spinner (Home.sidebarItem selectedJobId job) = true ->
   Api.is_terminal (Page.status job) = false) /\
  (Home.errorNote (Home.sidebarItem selectedJobId job) = true <->
   Page.status job = "error") /\
  (Home.errorNote (Home.sidebarItem selectedJobId job) = true ->
   Api.is_terminal (Page.status job) = true) /\
  (Home.spinner (Home.sidebarItem selectedJobId job) = true <->
   DocumentViewer.getStatusPercentage (Page.status job) = 25 \/
   DocumentViewer.getStatusPercentage (Page.status job) = 50) /\
  Home.item_status (Home.sidebarItem selectedJobId job) = Page.status job.
Proof.
  simpl. unfold Home.in_progress, Api.is_terminal, DocumentViewer.getStatusPercentage.
  destruct (String.eqb_spec (Page.status job) "pending") as [-> | H1];
    [simpl; repeat split; intros H; try discriminate H; try reflexivity; eauto;
       destruct H as [H | H]; discriminate H |].
  destruct (String.eqb_spec (Page.status job) "processing") as [-> | H2];
    [simpl; repeat split; intros H; try discriminate H; try reflexivity; eauto;
       destruct H as [H | H]; discriminate H |].
  destruct (String.eqb_spec (Page.status job) "done") as [-> | H3];
    [simpl; repeat split; intros H; try discriminate H; try reflexivity;
       destruct H as [H | H]; discriminate H |].
  destruct (String.eqb_spec (Page.status job) "error") as [-> | H4];
    [simpl; repeat split; intros H; try discriminate H; try reflexivity;
       destruct H as [H | H]; discriminate H |].
  simpl; repeat split; intros H; try discriminate H; try reflexivity;
    try contradiction; destruct H as [H | H]; first [contradiction | discriminate H].
Qed.

(** ** The upload form, further *)

Section FormMore.
Import FileUpload.

Lemma filter_length_eqb {A : Type} (p : A -> bool) (l : list A) :
  Nat.eqb (length (List.filter p l)) (length l) = forallb p l.
Proof.
  induction l as [|a l IH]; simpl; [reflexivity |].
  destruct (p a); simpl; [exact IH |].
  apply Nat.eqb_neq. pose proof (filter_length_le p l). lia.
Qed.

Lemma forallb_is_pdf (fs : list File) : forallb is_pdf fs = true <-> all_pdf fs.
Proof.
  rewrite forallb_forall. unfold all_pdf. rewrite Forall_forall.
  split; intros H f Hf.
  - apply String.eqb_eq. apply H. by apply list_elem_of_In.
  - apply String.eqb_eq. apply H. by apply list_elem_of_In.
Qed.

Lemma onDrop_parser (acceptedFiles : list File) (st : State) :
  parser (onDrop acceptedFiles st) = parser st.
Proof.
  unfold onDrop.
  destruct (Nat.ltb _ _); destruct (negb _); reflexivity.
Qed.

Lemma handleSubmit_parser (st : State) : parser (fst (handleSubmit st)) = parser st.
Proof.
  unfold handleSubmit.
  destruct (Nat.eqb _ _); [reflexivity |]. by destruct (String.eqb _ _).
Qed.

(** In a form driven by what it renders, the parser is always one of the
    three radio values, and so is the parser of every call of [onSubmit]. *)
Lemma rendered_run_parser (evs : list Event) (st : State) :
  Forall FileUploadView.rendered evs -> parser st ∈ FileUploadView.radioValues ->
  parser (fst (run evs st)) ∈ FileUploadView.radioValues /\
  Forall (fun c => snd c ∈ FileUploadView.radioValues) (snd (run evs st)).
Proof.
  revert st. induction evs as [|ev evs IH]; intros st Hev Hst; simpl.
  - split; [assumption | constructor].
  - apply Forall_cons in Hev as [Hev Hevs].
    assert (Hstep : parser (fst (step ev st)) ∈ FileUploadView.radioValues).
    { destruct ev as [acc | value |]; simpl.
      - by rewrite onDrop_parser.
      - exact Hev.
      - by rewrite handleSubmit_parser. }
    destruct (step ev st) as [st1 call] eqn:Hs. simpl in Hstep.
    destruct (IH st1 Hevs Hstep) as [Hp Hcalls].
    destruct (run evs st1) as [st2 calls]. simpl in *.
    split; [assumption |].
    destruct call as [c |]; [| assumption].
    constructor; [| assumption].
    destruct ev as [acc | value |]; simpl in Hs; try (inversion Hs; fail).
    assert (Hc : snd (handleSubmit st) = Some c) by (by rewrite Hs).
    apply handleSubmit_call in Hc as (-> & _). exact Hst.
Qed.

Lemma initial_parser : parser initial ∈ FileUploadView.radioValues.
Proof. by left. Qed.

Lemma radioValues_nonempty (p : string) : p ∈ FileUploadView.radioValues -> p <> "".
Proof.
  unfold FileUploadView.radioValues. rewrite !elem_of_cons, elem_of_nil.
  intros [-> | [-> | [-> | []]]]; discriminate.
Qed.

Lemma onDrop_error (acceptedFiles : list File) (st : State) :
  error (onDrop acceptedFiles st) =
    if forallb is_pdf acceptedFiles then None else Some "Only PDF files are allowed.".
Proof.
  unfold onDrop. rewrite filter_length_eqb.
  destruct (forallb is_pdf acceptedFiles); simpl; by destruct (Nat.ltb _ _).
Qed.

(** With a parser chosen, a click sets no other error than the one about
    the missing files. *)
Lemma handleSubmit_error (st : State) :
  parser st <> "" ->
  error (fst (handleSubmit st)) =
    if Nat.eqb (length (files st)) 0 then Some "Please upload at least one PDF file"
    else error st.
Proof.
  intros Hp%String.eqb_neq. unfold handleSubmit. rewrite Hp.
  by destruct (Nat.eqb _ _).
Qed.

Lemma rendered_run_error (evs : list Event) (st : State) :
  Forall FileUploadView.rendered evs -> parser st ∈ FileUploadView.radioValues ->
  error st <> Some "Please select a parser" ->
  error (fst (run evs st)) <> Some "Please select a parser".
Proof.
  revert st. induction evs as [|ev evs IH]; intros st Hev Hp Herr; simpl; [assumption |].
  apply Forall_cons in Hev as [Hev Hevs].
  assert (Hstep : error (fst (step ev st)) <> Some "Please select a parser" /\
                  parser (fst (step ev st)) ∈ FileUploadView.radioValues).
  { destruct ev as [acc | value |]; simpl.
    - split; [| by rewrite onDrop_parser].
      rewrite onDrop_error. by destruct (forallb is_pdf acc).
    - by split.
    - split; [| by rewrite handleSubmit_parser].
      rewrite handleSubmit_error by (by apply radioValues_nonempty).
      by destruct (Nat.eqb _ _). }
  destruct (step ev st) as [st1 call]. simpl in Hstep. destruct Hstep as [Herr1 Hp1].
  specialize (IH st1 Hevs Hp1 Herr1). by destruct (run evs st1).
Qed.
End FormMore.

(** X15. The form complains about a drop exactly when the drop holds a file
    that is not a PDF: after [onDrop] the error is "Only PDF files are
    allowed." if some dropped file has another MIME type, and there is no
    error otherwise, whatever error was shown before. *)
Theorem onDrop_error_iff_foreign_file
    (acceptedFiles : list FileUpload.File) (st : FileUpload.State) :
  FileUpload.error (FileUpload.onDrop acceptedFiles st) =
    (if forallb FileUpload.is_pdf acceptedFiles then None
     else Some "Only PDF files are allowed.") /\
  (FileUpload.error (FileUpload.onDrop acceptedFiles st) = None <->
   FileUpload.all_pdf acceptedFiles).
Proof.
  pose proof (onDrop_error acceptedFiles st) as Herr.
  split; [exact Herr |].
  rewrite Herr, <- forallb_is_pdf.
  destruct (forallb FileUpload.is_pdf acceptedFiles); split; intros H;
    first [reflexivity | discriminate H].
Qed.

(** X16. In the form as it is rendered (the parser set by the radio group
    only), a click is refused exactly when the button is disabled for lack
    of files: with at least one file selected, [handleSubmit] calls
    [onSubmit] with the selection and one of the three parsers and leaves
    the form as it is, and the message "Please select a parser" never
    shows. *)
Theorem enabled_button_submits (evs : list FileUpload.Event) :
  Forall FileUploadView.rendered evs ->
  FileUpload.parser (fst (FileUpload.run evs FileUpload.initial))
    ∈ FileUploadView.radioValues /\
  (FileUploadView.buttonDisabled false (fst (FileUpload.run evs FileUpload.initial)) = true <->
   snd (FileUpload.handleSubmit (fst (FileUpload.run evs FileUpload.initial))) = None) /\
  (FileUploadView.buttonDisabled false (fst (FileUpload.run evs FileUpload.initial)) = false ->
   FileUpload.handleSubmit (fst (FileUpload.run evs FileUpload.initial)) =
     (fst (FileUpload.run evs FileUpload.initial),
      Some (FileUpload.files (fst (FileUpload.run evs FileUpload.initial)),
            FileUpload.parser (fst (FileUpload.run evs FileUpload.initial))))) /\
  FileUpload.error (fst (FileUpload.handleSubmit (fst (FileUpload.run evs FileUpload.initial))))
    <> Some "Please select a parser".
Proof.
  intros Hev.
  destruct (rendered_run_parser evs FileUpload.initial Hev initial_parser) as [Hp _].
  pose proof (rendered_run_error evs FileUpload.initial Hev initial_parser
                ltac:(discriminate)) as Herr.
  set (st := fst (FileUpload.run evs FileUpload.initial)) in *.
  pose proof (radioValues_nonempty _ Hp) as Hne.
  split; [assumption |].
  split; [| split].
  - unfold FileUploadView.buttonDisabled, FileUpload.handleSubmit.
    apply String.eqb_neq in Hne. rewrite Hne. simpl.
    destruct (Nat.eqb (length (FileUpload.files st)) 0); simpl;
      split; intros H; first [reflexivity | discriminate H].
  - unfold FileUploadView.buttonDisabled, FileUpload.handleSubmit.
    apply String.eqb_neq in Hne. rewrite Hne. simpl.
    destruct (Nat.eqb (length (FileUpload.files st)) 0); simpl;
      intros H; first [reflexivity | discriminate H].
  - rewrite handleSubmit_error by assumption.
    destruct (Nat.eqb _ _); [discriminate | assumption].
Qed.

Lemma enabled_button_submits_witness :
  let pdf := FileUpload.mkFile "a.pdf" "application/pdf" 2048 in
  let evs := [FileUpload.Drop [pdf]; FileUpload.ValueChange "gemini"] in
  Forall FileUploadView.rendered evs /\
  FileUpload.handleSubmit (fst (FileUpload.run evs FileUpload.initial)) =
    (FileUpload.mkState [pdf] "gemini" None, Some ([pdf], "gemini")).
Proof.
  intros pdf evs.
  assert (Hev : Forall FileUploadView.rendered evs).
  { repeat constructor. }
  split; [exact Hev |].
  exact (proj1 (proj2 (proj2 (enabled_button_submits evs Hev))) eq_refl).
Defined.

(** ** The upload request *)

Section UploadBody.
Import Upload.

Lemma fold_append_files (files : list FileUpload.File) (acc : FormData) :
  fold_left (fun formData file => append "files" (FileValue file) formData) files acc
  = acc ++ ((fun file => ("files", FileValue file)) <$> files).
Proof.
  revert acc. induction files as [|f files IH]; intros acc; simpl.
  - by rewrite app_nil_r.
  - rewrite IH. unfold append. by rewrite <- app_assoc.
Qed.

Lemma formDataOf_entries (files : list FileUpload.File) (parser : string) :
  formDataOf files parser
  = ((fun file => ("files", FileValue file)) <$> files) ++ [("parser", TextValue parser)].
Proof. unfold formDataOf, append. by rewrite fold_append_files. Qed.

Lemma getAll_app (key : string) (a b : FormData) :
  getAll key (a ++ b) = getAll key a ++ getAll key b.
Proof. unfold getAll. by rewrite List.filter_app, fmap_app. Qed.

Lemma getAll_files_entries (key : string) (files : list FileUpload.File) :
  getAll key ((fun file => ("files", FileValue file)) <$> files)
  = if ("files" =? key)%string then FileValue <$> files else [].
Proof.
  unfold getAll. destruct ("files" =? key)%string eqn:Hk.
  - induction files as [|f files IH]; [reflexivity |].
    cbn -[String.eqb]. rewrite Hk. cbn -[String.eqb]. by f_equal.
  - induction files as [|f files IH]; [reflexivity |].
    cbn -[String.eqb]. by rewrite Hk.
Qed.

Lemma getAll_formDataOf (key : string) (files : list FileUpload.File) (parser : string) :
  getAll key (formDataOf files parser)
  = (if ("files" =? key)%string then FileValue <$> files else [])
    ++ (if ("parser" =? key)%string then [TextValue parser] else []).
Proof.
  rewrite formDataOf_entries, getAll_app, getAll_files_entries. f_equal.
  unfold getAll. cbn -[String.eqb]. by destruct ("parser" =? key)%string.
Qed.
End UploadBody.

(** X17. The upload body reads back as it was written: the body
    [uploadDocuments] posts holds the files under ['files'], all of them and
    in the order given, the parser as the only value under ['parser'], and
    nothing under any other key. *)
Theorem upload_body_round_trip
    (files : list FileUpload.File) (parser : string) (key : string) :
  Upload.getAll "files" (Upload.formDataOf files parser) = Upload.FileValue <$> files /\
  Upload.getAll "parser" (Upload.formDataOf files parser) = [Upload.TextValue parser] /\
  length (Upload.formDataOf files parser) = Datatypes.S (length files) /\
  (Upload.getAll key (Upload.formDataOf files parser) <> [] ->
   key = "files" \/ key = "parser").
Proof.
  split; [rewrite getAll_formDataOf; simpl; by rewrite app_nil_r |].
  split; [by rewrite getAll_formDataOf |]. split.
  - rewrite formDataOf_entries, length_app, length_fmap. simpl. lia.
  - rewrite getAll_formDataOf.
    destruct (String.eqb_spec "files" key) as [<- | _]; [by left |].
    destruct (String.eqb_spec "parser" key) as [<- | _]; [by right |].
    intros H. by contradiction H.
Qed.

(** X18. From the form to the wire: in the form as it is rendered, every
    call of [onSubmit] leads to an upload body with at least one file, PDF
    files only, and one of the three parsers as its only parser value. *)
Theorem submitted_upload_body_is_valid
    (evs : list FileUpload.Event) (fs : list FileUpload.File) (p : string) :
  Forall FileUploadView.rendered evs ->
  (fs, p) ∈ snd (FileUpload.run evs FileUpload.initial) ->
  Upload.getAll "files" (Upload.formDataOf fs p) <> [] /\
  Forall (fun v => exists file, v = Upload.FileValue file /\
                                FileUpload.type file = "application/pdf")
    (Upload.getAll "files" (Upload.formDataOf fs p)) /\
  Upload.getAll "parser" (Upload.formDataOf fs p) = [Upload.TextValue p] /\
  p ∈ FileUploadView.radioValues.
Proof.
  intros Hev Hcall.
  destruct (run_calls evs FileUpload.initial ltac:(constructor)) as [_ Hcalls].
  destruct (rendered_run_parser evs FileUpload.initial Hev initial_parser) as [_ Hparsers].
  rewrite Forall_forall in Hcalls, Hparsers.
  destruct (Hcalls _ Hcall) as (Hne & Hpdf & _). specialize (Hparsers _ Hcall).
  simpl in *. rewrite !getAll_formDataOf. simpl. rewrite app_nil_r.
  split; [| split; [| by split]].
  - destruct fs; [contradiction | discriminate].
  - apply Forall_fmap. eapply Forall_impl; [exact Hpdf |].
    intros file Hfile. simpl. by exists file.
Qed.

Lemma submitted_upload_body_is_valid_witness :
  let pdf := FileUpload.mkFile "a.pdf" "application/pdf" 2048 in
  let txt := FileUpload.mkFile "notes.txt" "text/plain" 12 in
  let evs := [FileUpload.Drop [txt; pdf]; FileUpload.ValueChange "mistral";
              FileUpload.Click] in
  Forall FileUploadView.rendered evs /\
  snd (FileUpload.run evs FileUpload.initial) = [([pdf], "mistral")] /\
  Upload.getAll "parser" (Upload.formDataOf [pdf] "mistral") = [Upload.TextValue "mistral"].
Proof.
  intros pdf txt evs.
  assert (Hev : Forall FileUploadView.rendered evs) by repeat constructor.
  assert (Hin : ([pdf], "mistral") ∈ snd (FileUpload.run evs FileUpload.initial))
    by (by left).
  split; [exact Hev |]. split; [reflexivity |].
  exact (proj1 (proj2 (proj2 (submitted_upload_body_is_valid evs [pdf] "mistral" Hev Hin)))).
Defined.

(** ** The error banner *)

Section Banner.
Import Page.

Lemma quiet_step_error (ev : Page.Event) (st : PageState) :
  (forall upload, ev <> Submitted upload) -> error (Page.step ev st) = error st.
Proof.
  intros Hev. destruct ev as [upload | u js | u |]; simpl; try reflexivity.
  by contradiction (Hev upload).
Qed.

Lemma quiet_run_error (evs : list Page.Event) (st : PageState) :
  Forall (fun ev => forall upload, ev <> Submitted upload) evs ->
  error (Page.run evs st) = error st.
Proof.
  revert st. induction evs as [|ev evs IH]; intros st Hall; simpl; [reflexivity |].
  apply Forall_cons in Hall as [Hev Hall]. unfold Page.run in IH.
  rewrite (IH _ Hall). by apply quiet_step_error.
Qed.
End Banner.

(** X19. The error banner tells how the last upload went, and nothing else
    touches it: after an upload attempt followed by any status updates,
    poll failures and clearings of the list, the banner shows "Error
    uploading documents. Please try again." if that attempt failed and is
    absent if it succeeded, whatever came before the attempt. *)
Theorem banner_reflects_last_upload
    (before after : list Page.Event) (upload : completion (list Api.UploadJob))
    (st : Page.PageState) :
  Forall (fun ev => forall upload', ev <> Page.Submitted upload') after ->
  Home.errorBanner (Page.run (before ++ Page.Submitted upload :: after) st) =
    match upload with
    | Normal _ => None
    | Throw _ => Some "Error uploading documents. Please try again."
    end.
Proof.
  intros Hquiet. unfold Page.run. rewrite fold_left_app. simpl.
  fold (Page.run before st). set (st1 := Page.run before st).
  fold (Page.run after (fst (Page.handleSubmit upload st1))).
  unfold Home.errorBanner. rewrite (quiet_run_error after _ Hquiet).
  by destruct upload.
Qed.

Lemma banner_reflects_last_upload_witness :
  let u := Api.mkUploadJob "j1" "a.pdf" in
  let failed : completion (list Api.UploadJob) := Throw Upload.upload_failed in
  Home.errorBanner
    (Page.run ([Page.Submitted (Normal [u])] ++
               Page.Submitted failed ::
               [Page.StatusArrived u (Api.mkJobStatus "j1" "done" "# A" "short");
                Page.ProcessMore]) Page.initial)
  = Some "Error uploading documents. Please try again.".
Proof.
  intros u failed.
  apply (banner_reflects_last_upload [Page.Submitted (Normal [u])] _ failed Page.initial).
  repeat constructor; discriminate.
Defined.
